(** * Analytics.js: the per-query metrics of the literature reviewer

    A shallow embedding of [src/Analytics.js] (class [AdvancedAnalytics]) and
    the properties of its metrics.

    Conventions of the embedding.
    - A JavaScript string is a sequence of UTF-16 code units.  The development
      covers the strings whose code units are below 256, one [ascii] per code
      unit; on that range [toLowerCase], [trim] and the regular-expression
      classes [\s], [\b] are modelled exactly.
    - A JavaScript number is modelled by the rational it denotes ([Q]).  The
      source compares a quotient of two counts with the literals 0.2 and
      0.3, a similarity with 0.5, and takes the ceiling of [(95 / 100) * n]
      for an array length [n]; for counts and lengths within the size of a
      string or an array the rounding of IEEE doubles does not change any of
      these outcomes, so exact arithmetic is used.  The quotient [0 / 0],
      which the source can produce and which is NaN, is kept apart
      ([JS.number]).
      Sums, products and quotients of numbers are exact as well: the
      rounding and the overflow of doubles are not modelled.  Nothing is
      therefore claimed of the value of a mean, of a throughput or of the
      half-sum that is the median of an array of even length; the
      properties of the aggregates are stated where the source computes no
      rounded value: on an empty array, on an element read from the sorted
      array, on a comparison of two elements.
    - Reading an array outside its bounds gives [undefined]; array reads are
      therefore [option]-valued ([JS.index]).
    - Calling a method of [undefined] throws a TypeError.  A function that can
      do so returns a [JS.outcome]; [trackQuery] then returns the metrics as
      the pushes made before the throw left them.
    - A [Set] is a [gset]; its [size] is the number of distinct members.
    - [this.metrics] is threaded explicitly: [trackQuery] takes the metrics
      before the call and returns the metrics after it. *)

From Stdlib Require Import QArith Qround Qminmax ZArith String Ascii List Lia Lqa.
From stdpp Require Import gmap strings list sorting.

(** ** JavaScript primitives used by Analytics.js *)

Module JS.

(** [\s] of a regular expression and the white space removed by [trim]:
    TAB, LF, VT, FF, CR, SPACE and NO-BREAK SPACE are the members below 256. *)
Definition isWhiteSpace (c : ascii) : bool :=
  let n := nat_of_ascii c in
  ((9 <=? n) && (n <=? 13)) || (n =? 32) || (n =? 160).

(** [\w] of a regular expression without flags: [A-Za-z0-9_]. *)
Definition isWordChar (c : ascii) : bool :=
  let n := nat_of_ascii c in
  ((65 <=? n) && (n <=? 90)) || ((97 <=? n) && (n <=? 122))
  || ((48 <=? n) && (n <=? 57)) || (n =? 95).

(** The code units below 256 that [toLowerCase] changes: A-Z and the
    Latin-1 capitals U+00C0..U+00DE except the multiplication sign U+00D7. *)
Definition isUpper (c : ascii) : bool :=
  let n := nat_of_ascii c in
  ((65 <=? n) && (n <=? 90))
  || ((192 <=? n) && (n <=? 222) && negb (n =? 215)).

Definition toLowerChar (c : ascii) : ascii :=
  if isUpper c then ascii_of_nat (nat_of_ascii c + 32) else c.

(** [s.toLowerCase()] *)
Fixpoint toLowerCase (s : string) : string :=
  match s with
  | EmptyString => EmptyString
  | String c s' => String (toLowerChar c) (toLowerCase s')
  end.

Fixpoint trimStart (s : string) : string :=
  match s with
  | EmptyString => EmptyString
  | String c s' => if isWhiteSpace c then trimStart s' else s
  end.

Fixpoint trimEnd (s : string) : string :=
  match s with
  | EmptyString => EmptyString
  | String c s' =>
      match trimEnd s' with
      | EmptyString => if isWhiteSpace c then EmptyString else String c EmptyString
      | t => String c t
      end
  end.

(** [s.trim()] *)
Definition trim (s : string) : string := trimEnd (trimStart s).

(** [s.includes(w)]: [w] occurs in [s] as a contiguous substring. *)
Fixpoint includes (s w : string) : bool :=
  String.prefix w s
  || match s with
     | EmptyString => false
     | String _ s' => includes s' w
     end.

(** [s.split(/[...]+/)] for a character class [sep]: the pieces between the
    maximal runs of separators.  A separator at the very start or the very
    end leaves an empty piece there, and the empty string splits into one
    empty piece.  [inRun] tells that the previous code unit was a separator,
    so that the run in progress has already closed its piece. *)
Fixpoint splitRunsFrom (sep : ascii -> bool) (inRun : bool) (s : string)
  : list string :=
  match s with
  | EmptyString => [EmptyString]
  | String c s' =>
      if sep c then
        if inRun then splitRunsFrom sep true s'
        else EmptyString :: splitRunsFrom sep true s'
      else
        match splitRunsFrom sep false s' with
        | piece :: rest => String c piece :: rest
        | [] => [String c EmptyString]
        end
  end.

Definition splitRuns (sep : ascii -> bool) (s : string) : list string :=
  splitRunsFrom sep false s.

(** [s.split(/a|b/)] for single code units: every separator ends a piece. *)
Fixpoint splitEach (sep : ascii -> bool) (s : string) : list string :=
  match s with
  | EmptyString => [EmptyString]
  | String c s' =>
      if sep c then EmptyString :: splitEach sep s'
      else
        match splitEach sep s' with
        | piece :: rest => String c piece :: rest
        | [] => [String c EmptyString]
        end
  end.

(** [pieces.join(sep)] *)
Fixpoint join (sep : string) (pieces : list string) : string :=
  match pieces with
  | [] => EmptyString
  | [p] => p
  | p :: rest => p +:+ sep +:+ join sep rest
  end.

(** [\b]: exactly one of the two neighbouring code units is a word
    character; beyond either end of the input there is none. *)
Definition wordBoundary (before after : option ascii) : bool :=
  xorb (from_option isWordChar false before)
       (from_option isWordChar false after).

(** [\b(w)\b] matched with [w] starting at the head of [s], where [before]
    is the code unit in front of [s]. *)
Definition matchWordAt (before : option ascii) (s w : string) : bool :=
  String.prefix w s
  && wordBoundary before (String.get 0 s)
  && wordBoundary
       (match String.length w with
        | O => before
        | S n => String.get n w
        end)
       (String.get (String.length w) s).

Fixpoint testWordsFrom (alts : list string) (before : option ascii)
  (s : string) : bool :=
  existsb (matchWordAt before s) alts
  || match s with
     | EmptyString => false
     | String c s' => testWordsFrom alts (Some c) s'
     end.

(** [/\b(a1|a2|...)\b/.test(s)] *)
Definition testWords (alts : list string) (s : string) : bool :=
  testWordsFrom alts None s.

#[global] Instance Qle_dec (x y : Q) : Decision (x <= y)%Q.
Proof. unfold Qle. apply _. Defined.

#[global] Instance Qlt_dec (x y : Q) : Decision (x < y)%Q.
Proof. unfold Qlt. apply _. Defined.

(** The value of [a / b] for two array lengths or set sizes. *)
Inductive number : Type :=
| Num (q : Q)
| Infinity
| NaN.

Definition ofNat (n : nat) : Q := inject_Z (Z.of_nat n).

Definition ratio (a b : nat) : Q := ofNat a / ofNat b.

Definition divide (a b : nat) : number :=
  match b, a with
  | O, O => NaN
  | O, S _ => Infinity
  | S _, _ => Num (ratio a b)
  end.

(** [x > lit] and [x < lit]; every comparison with NaN is false. *)
Definition gt (x : number) (lit : Q) : bool :=
  match x with
  | Num q => bool_decide (lit < q)%Q
  | Infinity => true
  | NaN => false
  end.

Definition lt (x : number) (lit : Q) : bool :=
  match x with
  | Num q => bool_decide (q < lit)%Q
  | Infinity => false
  | NaN => false
  end.

(** How a call ends: it returns a value, or it throws (here always the
    TypeError of a method call on [undefined]). *)
Inductive outcome (A : Type) : Type :=
| Returns (a : A)
| Throws.

Arguments Returns {A} a.
Arguments Throws {A}.

(** [arr[i]]: [undefined] ([None]) outside the bounds. *)
Definition index {A : Type} (arr : list A) (i : Z) : option A :=
  if (i <? 0)%Z then None else arr !! Z.to_nat i.

(** [[...arr].sort((a, b) => a - b)]: a copy sorted in ascending order. *)
Definition sortAscending (arr : list Q) : list Q := merge_sort Qle arr.

End JS.

(** ** The data of Analytics.js *)

(** An element of [contextChunks]: the fields that the metrics read. *)
Module Chunk.
Record t : Type := mk { text : string; source : string; similarity : Q }.
End Chunk.

(** An element of [sources]. *)
Module Citation.
Record t : Type := mk { source : string; similarity : Q }.
End Citation.

(** The argument of [trackQuery].  [contextChunks] may be absent
    ([undefined]): every function that receives it tests [!contextChunks].
    [sources] may be absent too: [calculateSourceDiversity] tests [!sources],
    while [calculateCitationCoverage] calls [sources.map] untested. *)
Module QueryRecord.
Record t : Type := mk {
  query : string;
  response : string;
  sources : option (list Citation.t);
  contextChunks : option (list Chunk.t);
  ttftMs : Q;
  totalTimeMs : Q;
  tokensGenerated : Q;
  topSimilarity : Q;
  avgSimilarity : Q
}.
End QueryRecord.

(** The result of [classifyQuery], a key of [metrics.queryTypes]. *)
Inductive QueryType : Type :=
| question
| summary
| comparison
| generation
| other.

#[global] Instance QueryType_eq_dec : EqDecision QueryType.
Proof. solve_decision. Defined.

(** [metrics.queryTypes] *)
Module QueryTypes.
Record t : Type := mk {
  question : nat;
  summary : nat;
  comparison : nat;
  generation : nat;
  other : nat
}.
End QueryTypes.

(** [this.metrics] *)
Module Metrics.
Record t : Type := mk {
  responseLengths : list Q;
  vocabularyUnique : gset string;
  repetitionScores : list Q;
  diversityDistinct1 : list Q;
  diversityDistinct2 : list Q;
  contextUtilization : list Q;
  answerGrounding : list Q;
  citationCoverage : list Q;
  retrievalPrecision : list Q;
  totalGenTime : list Q;
  throughput : list Q;
  memoryUsage : list Q;
  queryComplexity : list Q;
  sessionDurations : list Q;
  followUpRates : list Q;
  queryTypes : QueryTypes.t;
  hallucinationScores : list Q;
  completenessScores : list Q;
  sourceDiversity : list Q
}.
End Metrics.

(** The result of [calculateDiversity]. *)
Module Diversity.
Record t : Type := mk { distinct1 : Q; distinct2 : Q; uniqueTokens : nat }.
End Diversity.

(** The result of [calculateQueryComplexity]. *)
Module Complexity.
Record t : Type := mk {
  wordCount : nat;
  sentenceCount : nat;
  avgWordsPerSentence : Q;
  hasQuestion : bool;
  complexity : Q
}.
End Complexity.

(** The result of [trackQuery]. *)
Module QueryMetrics.
Record t : Type := mk {
  responseLength : nat;
  diversity : Diversity.t;
  repetition : Q;
  contextUtilization : Q;
  answerGrounding : Q;
  citationCoverage : Q;
  retrievalPrecision : Q;
  throughput : Q;
  queryComplexity : Complexity.t;
  queryType : QueryType;
  hallucinationScore : Q;
  completeness : Q;
  sourceDiversity : Q
}.
End QueryMetrics.

(** The result of [getAggregatedStats].  A median or percentile is read from
    an array, so it is an [option]: [None] stands for [undefined] or NaN. *)
Module Stats.
Record Generation : Type := mkGeneration {
  avgResponseLength : Q;
  medianResponseLength : option Q;
  minResponseLength : Q;
  maxResponseLength : Q;
  avgDistinct1 : Q;
  avgDistinct2 : Q;
  avgRepetition : Q
}.
Record Rag : Type := mkRag {
  avgContextUtilization : Q;
  avgAnswerGrounding : Q;
  avgCitationCoverage : Q;
  avgRetrievalPrecision : Q
}.
Record Performance : Type := mkPerformance {
  avgTotalGenTime : Q;
  medianTotalGenTime : option Q;
  p95TotalGenTime : option Q;
  avgThroughput : Q
}.
Record Engagement : Type := mkEngagement {
  avgQueryComplexity : Q;
  queryTypeDistribution : QueryTypes.t
}.
Record Quality : Type := mkQuality {
  avgHallucinationScore : Q;
  avgCompleteness : Q;
  avgSourceDiversity : Q
}.
Record t : Type := mk {
  generation : Generation;
  rag : Rag;
  performance : Performance;
  engagement : Engagement;
  quality : Quality
}.
End Stats.

(** ** class AdvancedAnalytics *)

Module AdvancedAnalytics.

(** The metrics object built by the constructor. *)
Definition constructor : Metrics.t :=
  {| Metrics.responseLengths := [];
     Metrics.vocabularyUnique := ∅;
     Metrics.repetitionScores := [];
     Metrics.diversityDistinct1 := [];
     Metrics.diversityDistinct2 := [];
     Metrics.contextUtilization := [];
     Metrics.answerGrounding := [];
     Metrics.citationCoverage := [];
     Metrics.retrievalPrecision := [];
     Metrics.totalGenTime := [];
     Metrics.throughput := [];
     Metrics.memoryUsage := [];
     Metrics.queryComplexity := [];
     Metrics.sessionDurations := [];
     Metrics.followUpRates := [];
     Metrics.queryTypes := QueryTypes.mk 0 0 0 0 0;
     Metrics.hallucinationScores := [];
     Metrics.completenessScores := [];
     Metrics.sourceDiversity := [] |}.

(** The class [[.!?]] of the sentence separator [/[.!?]+/]. *)
Definition isTerminator (c : ascii) : bool :=
  bool_decide (c ∈ ["."%char; "!"%char; "?"%char]).

(** [text.split(/[.!?]+/)] and [text.split(/\s+/)] *)
Definition splitSentences (text : string) : list string :=
  JS.splitRuns isTerminator text.

Definition splitWords (text : string) : list string :=
  JS.splitRuns JS.isWhiteSpace text.

(** [!contextChunks || contextChunks.length === 0] *)
Definition noContext (contextChunks : option (list Chunk.t)) : bool :=
  match contextChunks with
  | None => true
  | Some chunks => length chunks =? 0
  end.

(** [contextChunks.map(c => c.text.toLowerCase()).join(' ')] *)
Definition contextTextOf (chunks : list Chunk.t) : string :=
  JS.join " " (map (λ c, JS.toLowerCase (Chunk.text c)) chunks).

(** The loop of [calculateDiversity] over adjacent tokens. *)
Fixpoint addBigrams (tokens : list string) (bigrams : gset string)
  : gset string :=
  match tokens with
  | [] => bigrams
  | a :: rest =>
      match rest with
      | [] => bigrams
      | b :: _ => addBigrams rest (bigrams ∪ {[ a +:+ "_" +:+ b ]})
      end
  end.

Definition calculateDiversity (text : string) : Diversity.t :=
  let tokens := splitWords (JS.toLowerCase text) in
  let unigrams : gset string := list_to_set tokens in
  let bigrams := addBigrams tokens ∅ in
  let distinct1 :=
    if 0 <? length tokens then JS.ratio (size unigrams) (length tokens)
    else 0%Q in
  let distinct2 :=
    if 1 <? length tokens then JS.ratio (size bigrams) (length tokens - 1)
    else 0%Q in
  Diversity.mk distinct1 distinct2 (size unigrams).

(** One round of the [forEach] of [calculateRepetition]; the state is
    [(repetitionCount, seen)]. *)
Definition repetitionStep (st : nat * gset string) (sentence : string)
  : nat * gset string :=
  let '(repetitionCount, seen) := st in
  let normalized := JS.toLowerCase (JS.trim sentence) in
  (if bool_decide (normalized ∈ seen) then S repetitionCount
   else repetitionCount,
   seen ∪ {[ normalized ]}).

Definition calculateRepetition (text : string) : Q :=
  let sentences :=
    List.filter (λ s, 0 <? String.length (JS.trim s)) (splitSentences text) in
  if length sentences <? 2 then 0%Q
  else
    let '(repetitionCount, _) := fold_left repetitionStep sentences (0, ∅) in
    JS.ratio repetitionCount (length sentences).

Definition calculateContextUtilization (response : string)
  (contextChunks : option (list Chunk.t)) : Q :=
  if noContext contextChunks then 0%Q
  else
    let chunks := default [] contextChunks in
    let contextText := contextTextOf chunks in
    let responseWords : gset string :=
      list_to_set (splitWords (JS.toLowerCase response)) in
    let contextWords : gset string := list_to_set (splitWords contextText) in
    let usedWords :=
      fold_left
        (λ usedWords word,
           if bool_decide (word ∈ contextWords) && (3 <? String.length word)
           then S usedWords else usedWords)
        (elements responseWords) 0 in
    if 0 <? size contextWords then JS.ratio usedWords (size contextWords)
    else 0%Q.

(** The words that [calculateGrounding] and [detectHallucination] take from
    a sentence: [sentence.toLowerCase().split(/\s+/).filter(w => w.length > 4)] *)
Definition contentWords (sentence : string) : list string :=
  List.filter (λ w, 4 <? String.length w) (splitWords (JS.toLowerCase sentence)).

(** [matches.length / words.length] for one sentence. *)
Definition matchRate (contextText sentence : string) : JS.number :=
  let words := contentWords sentence in
  let matches := List.filter (λ w, JS.includes contextText w) words in
  JS.divide (length matches) (length words).

(** [response.split(/[.!?]+/).filter(s => s.trim().length > 20)] *)
Definition longSentences (response : string) : list string :=
  List.filter (λ s, 20 <? String.length (JS.trim s)) (splitSentences response).

Definition calculateGrounding (response : string)
  (contextChunks : option (list Chunk.t)) : Q :=
  if noContext contextChunks then 0%Q
  else
    let chunks := default [] contextChunks in
    let responseSentences := longSentences response in
    if length responseSentences =? 0 then 0%Q
    else
      let contextText := contextTextOf chunks in
      let groundedSentences :=
        fold_left
          (λ groundedSentences sentence,
             if JS.gt (matchRate contextText sentence) (3 # 10)
             then S groundedSentences else groundedSentences)
          responseSentences 0 in
      JS.ratio groundedSentences (length responseSentences).

(** With context present [sources.map] is called: on an absent [sources]
    it throws. *)
Definition calculateCitationCoverage (sources : option (list Citation.t))
  (contextChunks : option (list Chunk.t)) : JS.outcome Q :=
  if noContext contextChunks then JS.Returns 0%Q
  else
    let chunks := default [] contextChunks in
    match sources with
    | None => JS.Throws
    | Some sources =>
        let uniqueSources : gset string :=
          list_to_set (map Citation.source sources) in
        let availableSources : gset string :=
          list_to_set (map Chunk.source chunks) in
        JS.Returns (JS.ratio (size uniqueSources) (size availableSources))
    end.

Definition calculateRetrievalPrecision
  (contextChunks : option (list Chunk.t)) (topSimilarity avgSimilarity : Q)
  : Q :=
  if noContext contextChunks then 0%Q
  else
    let chunks := default [] contextChunks in
    let highQualityChunks :=
      length
        (List.filter (λ c, bool_decide (1 # 2 < Chunk.similarity c)%Q) chunks) in
    JS.ratio highQualityChunks (length chunks).

(** The alternatives of the four regular expressions of [classifyQuery]. *)
Definition questionWords : list string :=
  ["what"; "who"; "when"; "where"; "why"; "how"; "which"].
Definition summaryWords : list string :=
  ["summarize"; "summary"; "overview"; "brief"].
Definition comparisonWords : list string :=
  ["compare"; "contrast"; "difference"; "versus"; "vs"].
Definition generationWords : list string :=
  ["generate"; "create"; "write"; "compose"].

Definition classifyQuery (query : string) : QueryType :=
  let q := JS.toLowerCase query in
  if JS.testWords questionWords q then question
  else if JS.testWords summaryWords q then summary
  else if JS.testWords comparisonWords q then comparison
  else if JS.testWords generationWords q then generation
  else other.

(** The class of the clause separator [/,|;/]. *)
Definition isClauseSeparator (c : ascii) : bool :=
  bool_decide (c ∈ [","%char; ";"%char]).

Definition calculateQueryComplexity (query : string) : Complexity.t :=
  let words := splitWords query in
  let sentences :=
    List.filter (λ s, 0 <? String.length (JS.trim s)) (splitSentences query) in
  let hasQuestionMark := JS.includes query "?" in
  let hasClauses := length (JS.splitEach isClauseSeparator query) - 1 in
  {| Complexity.wordCount := length words;
     Complexity.sentenceCount := length sentences;
     Complexity.avgWordsPerSentence :=
       if 0 <? length sentences then JS.ratio (length words) (length sentences)
       else 0%Q;
     Complexity.hasQuestion := hasQuestionMark;
     Complexity.complexity :=
       Qmin 10
         (JS.ofNat (length words) / 5 + JS.ofNat hasClauses
          + (if hasQuestionMark then 1 else 0))%Q |}.

Definition detectHallucination (response : string)
  (contextChunks : option (list Chunk.t)) : Q :=
  if noContext contextChunks then 1%Q
  else
    let chunks := default [] contextChunks in
    let contextText := contextTextOf chunks in
    let responseSentences := longSentences response in
    let possibleHallucinations :=
      fold_left
        (λ possibleHallucinations sentence,
           if JS.lt (matchRate contextText sentence) (2 # 10)
           then S possibleHallucinations else possibleHallucinations)
        responseSentences 0 in
    if 0 <? length responseSentences
    then JS.ratio possibleHallucinations (length responseSentences)
    else 0%Q.

Definition stopWords : list string :=
  ["what"; "when"; "where"; "which"; "could"; "would"; "should"].

Definition calculateCompleteness (query response : string) : Q :=
  let queryWords :=
    List.filter
      (λ w, (4 <? String.length w) && negb (bool_decide (w ∈ stopWords)))
      (splitWords (JS.toLowerCase query)) in
  if length queryWords =? 0 then 1%Q
  else
    let responseLower := JS.toLowerCase response in
    let addressedWords :=
      List.filter (λ word, JS.includes responseLower word) queryWords in
    JS.ratio (length addressedWords) (length queryWords).

(** [sources] may be absent here: the function tests [!sources]. *)
Definition calculateSourceDiversity (sources : option (list Citation.t)) : Q :=
  match sources with
  | None => 0%Q
  | Some sources =>
      if length sources =? 0 then 0%Q
      else
        let uniqueSources : gset string :=
          list_to_set (map Citation.source sources) in
        JS.ratio (size uniqueSources) (length sources)
  end.

(** [queryTypes[queryType]++] *)
Definition increment (queryType : QueryType) (c : QueryTypes.t)
  : QueryTypes.t :=
  match queryType with
  | question => QueryTypes.mk (S (QueryTypes.question c)) (QueryTypes.summary c)
      (QueryTypes.comparison c) (QueryTypes.generation c) (QueryTypes.other c)
  | summary => QueryTypes.mk (QueryTypes.question c) (S (QueryTypes.summary c))
      (QueryTypes.comparison c) (QueryTypes.generation c) (QueryTypes.other c)
  | comparison => QueryTypes.mk (QueryTypes.question c) (QueryTypes.summary c)
      (S (QueryTypes.comparison c)) (QueryTypes.generation c) (QueryTypes.other c)
  | generation => QueryTypes.mk (QueryTypes.question c) (QueryTypes.summary c)
      (QueryTypes.comparison c) (S (QueryTypes.generation c)) (QueryTypes.other c)
  | other => QueryTypes.mk (QueryTypes.question c) (QueryTypes.summary c)
      (QueryTypes.comparison c) (QueryTypes.generation c) (S (QueryTypes.other c))
  end.

(** [trackQuery(data)]: the metrics after the call and how the call ended.
    The metric functions do not read [this.metrics], so the pushes of the
    source, made one after the other, are gathered in one record.  When
    [calculateCitationCoverage] throws, the six pushes made before it stay
    and nothing else is written. *)
Definition trackQuery (metrics : Metrics.t) (data : QueryRecord.t)
  : Metrics.t * JS.outcome QueryMetrics.t :=
  let query := QueryRecord.query data in
  let response := QueryRecord.response data in
  let sources := QueryRecord.sources data in
  let contextChunks := QueryRecord.contextChunks data in
  let totalTimeMs := QueryRecord.totalTimeMs data in
  let tokensGenerated := QueryRecord.tokensGenerated data in
  let topSimilarity := QueryRecord.topSimilarity data in
  let avgSimilarity := QueryRecord.avgSimilarity data in
  let responseLength := String.length response in
  let diversity := calculateDiversity response in
  let repetition := calculateRepetition response in
  let contextUtil := calculateContextUtilization response contextChunks in
  let grounding := calculateGrounding response contextChunks in
  match calculateCitationCoverage sources contextChunks with
  | JS.Throws =>
      ({| Metrics.responseLengths :=
            Metrics.responseLengths metrics ++ [JS.ofNat responseLength];
          Metrics.vocabularyUnique := Metrics.vocabularyUnique metrics;
          Metrics.repetitionScores :=
            Metrics.repetitionScores metrics ++ [repetition];
          Metrics.diversityDistinct1 :=
            Metrics.diversityDistinct1 metrics
            ++ [Diversity.distinct1 diversity];
          Metrics.diversityDistinct2 :=
            Metrics.diversityDistinct2 metrics
            ++ [Diversity.distinct2 diversity];
          Metrics.contextUtilization :=
            Metrics.contextUtilization metrics ++ [contextUtil];
          Metrics.answerGrounding :=
            Metrics.answerGrounding metrics ++ [grounding];
          Metrics.citationCoverage := Metrics.citationCoverage metrics;
          Metrics.retrievalPrecision := Metrics.retrievalPrecision metrics;
          Metrics.totalGenTime := Metrics.totalGenTime metrics;
          Metrics.throughput := Metrics.throughput metrics;
          Metrics.memoryUsage := Metrics.memoryUsage metrics;
          Metrics.queryComplexity := Metrics.queryComplexity metrics;
          Metrics.sessionDurations := Metrics.sessionDurations metrics;
          Metrics.followUpRates := Metrics.followUpRates metrics;
          Metrics.queryTypes := Metrics.queryTypes metrics;
          Metrics.hallucinationScores := Metrics.hallucinationScores metrics;
          Metrics.completenessScores := Metrics.completenessScores metrics;
          Metrics.sourceDiversity := Metrics.sourceDiversity metrics |},
       JS.Throws)
  | JS.Returns citationCov =>
      let retrievalPrec :=
        calculateRetrievalPrecision contextChunks topSimilarity
          avgSimilarity in
      let throughput :=
        if bool_decide (0 < totalTimeMs)%Q
        then (tokensGenerated / totalTimeMs * 1000)%Q else 0%Q in
      let queryComp := calculateQueryComplexity query in
      let queryType := classifyQuery query in
      let hallucinationScore := detectHallucination response contextChunks in
      let completeness := calculateCompleteness query response in
      let sourceDiversity := calculateSourceDiversity sources in
      ({| Metrics.responseLengths :=
            Metrics.responseLengths metrics ++ [JS.ofNat responseLength];
          Metrics.vocabularyUnique := Metrics.vocabularyUnique metrics;
          Metrics.repetitionScores :=
            Metrics.repetitionScores metrics ++ [repetition];
          Metrics.diversityDistinct1 :=
            Metrics.diversityDistinct1 metrics
            ++ [Diversity.distinct1 diversity];
          Metrics.diversityDistinct2 :=
            Metrics.diversityDistinct2 metrics
            ++ [Diversity.distinct2 diversity];
          Metrics.contextUtilization :=
            Metrics.contextUtilization metrics ++ [contextUtil];
          Metrics.answerGrounding :=
            Metrics.answerGrounding metrics ++ [grounding];
          Metrics.citationCoverage :=
            Metrics.citationCoverage metrics ++ [citationCov];
          Metrics.retrievalPrecision :=
            Metrics.retrievalPrecision metrics ++ [retrievalPrec];
          Metrics.totalGenTime := Metrics.totalGenTime metrics ++ [totalTimeMs];
          Metrics.throughput := Metrics.throughput metrics ++ [throughput];
          Metrics.memoryUsage := Metrics.memoryUsage metrics;
          Metrics.queryComplexity :=
            Metrics.queryComplexity metrics
            ++ [Complexity.complexity queryComp];
          Metrics.sessionDurations := Metrics.sessionDurations metrics;
          Metrics.followUpRates := Metrics.followUpRates metrics;
          Metrics.queryTypes :=
            increment queryType (Metrics.queryTypes metrics);
          Metrics.hallucinationScores :=
            Metrics.hallucinationScores metrics ++ [hallucinationScore];
          Metrics.completenessScores :=
            Metrics.completenessScores metrics ++ [completeness];
          Metrics.sourceDiversity :=
            Metrics.sourceDiversity metrics ++ [sourceDiversity] |},
       JS.Returns
         {| QueryMetrics.responseLength := responseLength;
            QueryMetrics.diversity := diversity;
            QueryMetrics.repetition := repetition;
            QueryMetrics.contextUtilization := contextUtil;
            QueryMetrics.answerGrounding := grounding;
            QueryMetrics.citationCoverage := citationCov;
            QueryMetrics.retrievalPrecision := retrievalPrec;
            QueryMetrics.throughput := throughput;
            QueryMetrics.queryComplexity := queryComp;
            QueryMetrics.queryType := queryType;
            QueryMetrics.hallucinationScore := hallucinationScore;
            QueryMetrics.completeness := completeness;
            QueryMetrics.sourceDiversity := sourceDiversity |})
  end.

(** The three local functions of [getAggregatedStats].  [Math.min(...arr, 0)]
    and [Math.max(...arr, 0)] are the folds of [Qmin] and [Qmax] from 0. *)
Definition avg (arr : list Q) : Q :=
  if 0 <? length arr
  then (fold_left Qplus arr 0 / JS.ofNat (length arr))%Q else 0%Q.

Definition median (arr : list Q) : option Q :=
  if length arr =? 0 then Some 0%Q
  else
    let sorted := JS.sortAscending arr in
    let mid := (Z.of_nat (length sorted) / 2)%Z in
    if length sorted mod 2 =? 0
    then
      a ← JS.index sorted (mid - 1)%Z;
      b ← JS.index sorted mid;
      Some ((a + b) / 2)%Q
    else JS.index sorted mid.

Definition percentile (arr : list Q) (p : Q) : option Q :=
  if length arr =? 0 then Some 0%Q
  else
    let sorted := JS.sortAscending arr in
    let idx :=
      (Qceiling (p / 100 * JS.ofNat (length sorted)) - 1)%Z in
    JS.index sorted (Z.max 0 idx).

Definition getAggregatedStats (metrics : Metrics.t) : Stats.t :=
  {| Stats.generation :=
       {| Stats.avgResponseLength := avg (Metrics.responseLengths metrics);
          Stats.medianResponseLength :=
            median (Metrics.responseLengths metrics);
          Stats.minResponseLength :=
            fold_left Qmin (Metrics.responseLengths metrics) 0%Q;
          Stats.maxResponseLength :=
            fold_left Qmax (Metrics.responseLengths metrics) 0%Q;
          Stats.avgDistinct1 := avg (Metrics.diversityDistinct1 metrics);
          Stats.avgDistinct2 := avg (Metrics.diversityDistinct2 metrics);
          Stats.avgRepetition := avg (Metrics.repetitionScores metrics) |};
     Stats.rag :=
       {| Stats.avgContextUtilization :=
            avg (Metrics.contextUtilization metrics);
          Stats.avgAnswerGrounding := avg (Metrics.answerGrounding metrics);
          Stats.avgCitationCoverage := avg (Metrics.citationCoverage metrics);
          Stats.avgRetrievalPrecision :=
            avg (Metrics.retrievalPrecision metrics) |};
     Stats.performance :=
       {| Stats.avgTotalGenTime := avg (Metrics.totalGenTime metrics);
          Stats.medianTotalGenTime := median (Metrics.totalGenTime metrics);
          Stats.p95TotalGenTime := percentile (Metrics.totalGenTime metrics) 95;
          Stats.avgThroughput := avg (Metrics.throughput metrics) |};
     Stats.engagement :=
       {| Stats.avgQueryComplexity := avg (Metrics.queryComplexity metrics);
          Stats.queryTypeDistribution := Metrics.queryTypes metrics |};
     Stats.quality :=
       {| Stats.avgHallucinationScore :=
            avg (Metrics.hallucinationScores metrics);
          Stats.avgCompleteness := avg (Metrics.completenessScores metrics);
          Stats.avgSourceDiversity := avg (Metrics.sourceDiversity metrics) |} |}.

(** [export()]: the raw metrics beside their aggregation. *)
Definition export (metrics : Metrics.t) : Metrics.t * Stats.t :=
  (metrics, getAggregatedStats metrics).

End AdvancedAnalytics.

(** ** Definitions that follow the specification

    They restate a metric in the words of the specification, to be compared
    with the function of the source. *)

Module Spec.

(** The fraction of the members of [l] that satisfy [P].  Over no members it
    is 0, the neutral value the specification gives to a division by zero. *)
Definition fractionOf {A : Type} (P : A → bool) (l : list A) : Q :=
  if length l =? 0 then 0%Q
  else JS.ratio (length (List.filter P l)) (length l).

(** The content words of [sentence] exist and fewer than 20% of them, that
    is fewer than one in five, occur in [contextText]. *)
Definition rateBelow20 (contextText sentence : string) : bool :=
  let words := AdvancedAnalytics.contentWords sentence in
  let found := List.filter (λ w, JS.includes contextText w) words in
  (0 <? length words) && (5 * length found <? length words).

(** The sentences of a response: the pieces between runs of [.], [!], [?],
    trimmed, the empty ones left out. *)
Definition sentences (text : string) : list string :=
  List.filter (λ s, negb (String.eqb s ""))
    (map JS.trim (AdvancedAnalytics.splitSentences text)).

(** The form at position [i] already occurred at an earlier position. *)
Definition occurredEarlier (forms : list string) (i : nat) : bool :=
  match forms !! i with
  | Some form => bool_decide (form ∈ take i forms)
  | None => false
  end.


(** The number of distinct values in a list. *)
Definition distinctCount (l : list string) : nat := length (remove_dups l).

(** The ordered rules of the query classification and their first match. *)
Definition rules : list (list string * QueryType) :=
  [ (AdvancedAnalytics.questionWords, question);
    (AdvancedAnalytics.summaryWords, summary);
    (AdvancedAnalytics.comparisonWords, comparison);
    (AdvancedAnalytics.generationWords, generation) ].

Definition firstMatch (q : string) : QueryType :=
  match List.find (λ rule, JS.testWords rule.1 q) rules with
  | Some rule => rule.2
  | None => other
  end.

(** The nearest-rank index of the [p]-th percentile among [n] values:
    [ceil(p/100 * n) - 1], not below 0. *)
Definition nearestRank (p : Q) (n : nat) : nat :=
  Z.to_nat (Z.max 0 (Qceiling (p / 100 * JS.ofNat n) - 1)).

(** The fourteen sequences of [this.metrics] that [trackQuery] extends. *)
Definition perQuerySequences : list (Metrics.t → list Q) :=
  [ Metrics.responseLengths; Metrics.diversityDistinct1;
    Metrics.diversityDistinct2; Metrics.repetitionScores;
    Metrics.contextUtilization; Metrics.answerGrounding;
    Metrics.citationCoverage; Metrics.retrievalPrecision;
    Metrics.totalGenTime; Metrics.throughput; Metrics.queryComplexity;
    Metrics.hallucinationScores; Metrics.completenessScores;
    Metrics.sourceDiversity ].

(** The counter of one query type and the sum of the five counters. *)
Definition counter (queryType : QueryType) (c : QueryTypes.t) : nat :=
  match queryType with
  | question => QueryTypes.question c
  | summary => QueryTypes.summary c
  | comparison => QueryTypes.comparison c
  | generation => QueryTypes.generation c
  | other => QueryTypes.other c
  end.

Definition total (c : QueryTypes.t) : nat :=
  QueryTypes.question c + QueryTypes.summary c + QueryTypes.comparison c
  + QueryTypes.generation c + QueryTypes.other c.

(** The metrics after tracking the records of [ds] one after the other. *)
Definition trackAll (metrics : Metrics.t) (ds : list QueryRecord.t)
  : Metrics.t :=
  fold_left (λ m d, (AdvancedAnalytics.trackQuery m d).1) ds metrics.

(** How the calls on the records of [ds] end, one after the other. *)
Fixpoint outcomes (metrics : Metrics.t) (ds : list QueryRecord.t)
  : list (JS.outcome QueryMetrics.t) :=
  match ds with
  | [] => []
  | d :: ds' =>
      (AdvancedAnalytics.trackQuery metrics d).2
      :: outcomes (AdvancedAnalytics.trackQuery metrics d).1 ds'
  end.

(** The content words of [sentence] exist and more than 30% of them, that is
    more than three in ten, occur in [contextText]. *)
Definition rateAbove30 (contextText sentence : string) : bool :=
  let words := AdvancedAnalytics.contentWords sentence in
  let found := List.filter (λ w, JS.includes contextText w) words in
  (0 <? length words) && (3 * length words <? 10 * length found).

(** The number of code units of [s] in the class [P]. *)
Fixpoint countChars (P : ascii → bool) (s : string) : nat :=
  match s with
  | EmptyString => 0
  | String c s' => (if P c then 1 else 0) + countChars P s'
  end.

(** [w] occurs in [s]: [s] is [w] between a prefix and a suffix. *)
Definition occursIn (w s : string) : Prop :=
  ∃ pre post : string, s = pre +:+ w +:+ post.

(** The number of returned results of type [queryType]. *)
Definition countType (queryType : QueryType) (rs : list QueryMetrics.t) : nat :=
  length
    (List.filter (λ r, bool_decide (QueryMetrics.queryType r = queryType)) rs).

(** The metrics that list, sequence by sequence and in the order of the
    calls, what [trackQuery] returned ([rs]) for the records [ds]. *)
Definition history (ds : list QueryRecord.t) (rs : list QueryMetrics.t)
  : Metrics.t :=
  {| Metrics.responseLengths :=
       map (λ r, JS.ofNat (QueryMetrics.responseLength r)) rs;
     Metrics.vocabularyUnique := ∅;
     Metrics.repetitionScores := map QueryMetrics.repetition rs;
     Metrics.diversityDistinct1 :=
       map (λ r, Diversity.distinct1 (QueryMetrics.diversity r)) rs;
     Metrics.diversityDistinct2 :=
       map (λ r, Diversity.distinct2 (QueryMetrics.diversity r)) rs;
     Metrics.contextUtilization := map QueryMetrics.contextUtilization rs;
     Metrics.answerGrounding := map QueryMetrics.answerGrounding rs;
     Metrics.citationCoverage := map QueryMetrics.citationCoverage rs;
     Metrics.retrievalPrecision := map QueryMetrics.retrievalPrecision rs;
     Metrics.totalGenTime := map QueryRecord.totalTimeMs ds;
     Metrics.throughput := map QueryMetrics.throughput rs;
     Metrics.memoryUsage := [];
     Metrics.queryComplexity :=
       map (λ r, Complexity.complexity (QueryMetrics.queryComplexity r)) rs;
     Metrics.sessionDurations := [];
     Metrics.followUpRates := [];
     Metrics.queryTypes :=
       QueryTypes.mk (countType question rs) (countType summary rs)
         (countType comparison rs) (countType generation rs)
         (countType other rs);
     Metrics.hallucinationScores := map QueryMetrics.hallucinationScore rs;
     Metrics.completenessScores := map QueryMetrics.completeness rs;
     Metrics.sourceDiversity := map QueryMetrics.sourceDiversity rs |}.

(** The metrics [m] with the sequences of [h] appended to its own and the
    counters of [h] added to its own.  The four fields that [trackQuery]
    never writes stay those of [m]. *)
Definition extend (m h : Metrics.t) : Metrics.t :=
  {| Metrics.responseLengths :=
       Metrics.responseLengths m ++ Metrics.responseLengths h;
     Metrics.vocabularyUnique := Metrics.vocabularyUnique m;
     Metrics.repetitionScores :=
       Metrics.repetitionScores m ++ Metrics.repetitionScores h;
     Metrics.diversityDistinct1 :=
       Metrics.diversityDistinct1 m ++ Metrics.diversityDistinct1 h;
     Metrics.diversityDistinct2 :=
       Metrics.diversityDistinct2 m ++ Metrics.diversityDistinct2 h;
     Metrics.contextUtilization :=
       Metrics.contextUtilization m ++ Metrics.contextUtilization h;
     Metrics.answerGrounding :=
       Metrics.answerGrounding m ++ Metrics.answerGrounding h;
     Metrics.citationCoverage :=
       Metrics.citationCoverage m ++ Metrics.citationCoverage h;
     Metrics.retrievalPrecision :=
       Metrics.retrievalPrecision m ++ Metrics.retrievalPrecision h;
     Metrics.totalGenTime := Metrics.totalGenTime m ++ Metrics.totalGenTime h;
     Metrics.throughput := Metrics.throughput m ++ Metrics.throughput h;
     Metrics.memoryUsage := Metrics.memoryUsage m;
     Metrics.queryComplexity :=
       Metrics.queryComplexity m ++ Metrics.queryComplexity h;
     Metrics.sessionDurations := Metrics.sessionDurations m;
     Metrics.followUpRates := Metrics.followUpRates m;
     Metrics.queryTypes :=
       QueryTypes.mk
         (QueryTypes.question (Metrics.queryTypes m)
          + QueryTypes.question (Metrics.queryTypes h))
         (QueryTypes.summary (Metrics.queryTypes m)
          + QueryTypes.summary (Metrics.queryTypes h))
         (QueryTypes.comparison (Metrics.queryTypes m)
          + QueryTypes.comparison (Metrics.queryTypes h))
         (QueryTypes.generation (Metrics.queryTypes m)
          + QueryTypes.generation (Metrics.queryTypes h))
         (QueryTypes.other (Metrics.queryTypes m)
          + QueryTypes.other (Metrics.queryTypes h));
     Metrics.hallucinationScores :=
       Metrics.hallucinationScores m ++ Metrics.hallucinationScores h;
     Metrics.completenessScores :=
       Metrics.completenessScores m ++ Metrics.completenessScores h;
     Metrics.sourceDiversity :=
       Metrics.sourceDiversity m ++ Metrics.sourceDiversity h |}.

(** A class of code units that lower-casing neither enters nor leaves. *)
Definition caseBlind (P : ascii → bool) : Prop :=
  ∀ c : ascii, P (JS.toLowerChar c) = P c.

(** A record with its query, its response and the texts of its context
    chunks in lower case. *)
Definition lowerChunk (c : Chunk.t) : Chunk.t :=
  Chunk.mk (JS.toLowerCase (Chunk.text c)) (Chunk.source c)
    (Chunk.similarity c).

Definition lowerCased (data : QueryRecord.t) : QueryRecord.t :=
  QueryRecord.mk (JS.toLowerCase (QueryRecord.query data))
    (JS.toLowerCase (QueryRecord.response data))
    (QueryRecord.sources data)
    (option_map (map lowerChunk) (QueryRecord.contextChunks data))
    (QueryRecord.ttftMs data) (QueryRecord.totalTimeMs data)
    (QueryRecord.tokensGenerated data) (QueryRecord.topSimilarity data)
    (QueryRecord.avgSimilarity data).

(** The call [trackQuery(data)] returns: [sources] is present, or there is
    no context and [sources.map] is not reached. *)
Definition callReturns (data : QueryRecord.t) : bool :=
  match QueryRecord.sources data with
  | Some _ => true
  | None => AdvancedAnalytics.noContext (QueryRecord.contextChunks data)
  end.

(** The six sequences that [trackQuery] extends before it computes the
    citation coverage, and the eight that it extends after. *)
Definition pushedBeforeCoverage : list (Metrics.t → list Q) :=
  [ Metrics.responseLengths; Metrics.diversityDistinct1;
    Metrics.diversityDistinct2; Metrics.repetitionScores;
    Metrics.contextUtilization; Metrics.answerGrounding ].

Definition pushedAfterCoverage : list (Metrics.t → list Q) :=
  [ Metrics.citationCoverage; Metrics.retrievalPrecision;
    Metrics.totalGenTime; Metrics.throughput; Metrics.queryComplexity;
    Metrics.hallucinationScores; Metrics.completenessScores;
    Metrics.sourceDiversity ].

(** *** The hallucination score and the grounding in the words of the
    specification *)

(** A sentence ends at [.], [!] or [?]. *)
Definition isSentenceEnd (c : ascii) : bool :=
  Ascii.eqb c "." || Ascii.eqb c "!" || Ascii.eqb c "?".

(** The maximal runs of code units of [s] outside the class [sep], in order:
    what lies between the separators, nothing empty. *)
Fixpoint runs (sep : ascii → bool) (s : string) : list string :=
  match s with
  | EmptyString => []
  | String c s' =>
      if sep c then runs sep s'
      else
        match s' with
        | EmptyString => [String c EmptyString]
        | String d _ =>
            if sep d then String c EmptyString :: runs sep s'
            else
              match runs sep s' with
              | w :: ws => String c w :: ws
              | [] => [String c EmptyString]
              end
        end
  end.

(** The sentences of the response that count: what lies between the sentence
    ends and has a trimmed length above 20. *)
Definition longSentences (response : string) : list string :=
  List.filter (λ piece, 20 <? String.length (JS.trim piece))
    (runs isSentenceEnd response).

(** The content words of a sentence: its lower-cased words, that is what
    lies between white space, longer than 4. *)
Definition contentWords (sentence : string) : list string :=
  List.filter (λ w, 4 <? String.length w)
    (runs JS.isWhiteSpace (JS.toLowerCase sentence)).

(** The texts one after the other, a space in front of each but the
    first. *)
Definition spaced (texts : list string) : string :=
  match texts with
  | [] => EmptyString
  | t :: rest => t +:+ fold_right (λ r acc, " " +:+ r +:+ acc) EmptyString rest
  end.

(** The context text: the lower-cased texts of the chunks, spaced. *)
Definition contextText (chunks : list Chunk.t) : string :=
  spaced (map (λ c, JS.toLowerCase (Chunk.text c)) chunks).

(** The rate of the content words of [sentence] that occur in [context] as
    substrings; a sentence without content words has no rate. *)
Definition rate (context sentence : string) : option Q :=
  let words := contentWords sentence in
  if 0 <? length words
  then Some (fractionOf (λ w, JS.includes context w) words)
  else None.

(** The rate exists and is below 20%. *)
Definition flagged (context sentence : string) : bool :=
  match rate context sentence with
  | Some r => bool_decide (r < 20 # 100)%Q
  | None => false
  end.

(** The rate exists and is above 30%. *)
Definition grounded (context sentence : string) : bool :=
  match rate context sentence with
  | Some r => bool_decide (30 # 100 < r)%Q
  | None => false
  end.

End Spec.

(** ** Names used in the proofs

    The sentences that [calculateRepetition] keeps, before trimming, and the
    normalized form that its loop gives to a sentence. *)

Definition keptSentences (text : string) : list string :=
  List.filter (λ s, 0 <? String.length (JS.trim s))
    (AdvancedAnalytics.splitSentences text).

Definition normalize (sentence : string) : string :=
  JS.toLowerCase (JS.trim sentence).

(** ** Sample data *)

Module Sample.

Definition skyChunk : Chunk.t :=
  Chunk.mk "Rayleigh scattering makes the sky blue" "sky.pdf" (9 # 10).

Definition seaChunk : Chunk.t :=
  Chunk.mk "The sea reflects the colour of the sky" "sea.pdf" (4 # 10).

Definition citations : list Citation.t :=
  [ Citation.mk "sky.pdf" (9 # 10); Citation.mk "sea.pdf" (4 # 10);
    Citation.mk "sun.pdf" (2 # 10) ].

Definition records : list QueryRecord.t :=
  [ QueryRecord.mk "Why is the sky blue?"
      "Rayleigh scattering of sunlight makes the sky appear blue."
      (Some citations) (Some [skyChunk; seaChunk]) 120 1200 40 (9 # 10)
      (65 # 100);
    QueryRecord.mk "Summarize the paper" "It is blue. Yes! Why not?"
      (Some []) (Some []) 90 800 12 0 0;
    QueryRecord.mk "Compare sea and sky" "The sky is blue. The sky is blue."
      (Some citations) None 150 2000 16 0 0 ].

Definition metrics : Metrics.t :=
  Spec.trackAll AdvancedAnalytics.constructor records.

Definition times : list Q := [1200; 800; 2000]%Q.

(** A record without [sources] and with context: the call throws. *)
Definition absentSources : QueryRecord.t :=
  QueryRecord.mk "Why is the sky blue?"
    "Rayleigh scattering of sunlight makes the sky appear blue."
    None (Some [skyChunk]) 120 1200 40 (9 # 10) (9 # 10).

(** What [trackQuery] returns for each of [records]. *)
Definition results : list QueryMetrics.t :=
  flat_map
    (λ d,
       match (AdvancedAnalytics.trackQuery AdvancedAnalytics.constructor d).2
       with
       | JS.Returns r => [r]
       | JS.Throws => []
       end)
    records.

End Sample.

(** ** Properties *)

Import AdvancedAnalytics.

(** *** Counting loops and quotients *)

Section Counting.
Context {A : Type} (P : A → bool).

Lemma fold_left_count (l : list A) (n : nat) :
  fold_left (λ k x, if P x then S k else k) l n
  = n + length (List.filter P l).
Proof.
  revert n. induction l as [|x l IH]; intros n; simpl.
  - lia.
  - rewrite IH. destruct (P x); simpl; lia.
Qed.

End Counting.

Lemma ratio_lt (a b c d : nat) :
  0 < b → 0 < d →
  (JS.ratio a b < JS.ratio c d)%Q ↔ a * d < c * b.
Proof.
  intros Hb Hd. unfold JS.ratio, JS.ofNat.
  destruct b as [|b]; [lia|]. destruct d as [|d]; [lia|].
  unfold Qlt, Qdiv, Qmult, Qinv. simpl. lia.
Qed.

(** The test [matches.length / words.length < 0.2] of the source holds
    exactly when there are content words and fewer than a fifth match. *)
Lemma lt_matchRate (contextText sentence : string) :
  JS.lt (matchRate contextText sentence) (2 # 10)
  = Spec.rateBelow20 contextText sentence.
Proof.
  unfold matchRate, Spec.rateBelow20.
  set (words := contentWords sentence).
  set (found := List.filter _ words).
  assert (Hle : length found ≤ length words) by apply filter_length_le.
  destruct (length words) as [|w] eqn:Hw.
  - assert (length found = 0) as -> by lia. reflexivity.
  - unfold JS.divide, JS.lt.
    change (2 # 10)%Q with (JS.ratio 2 10).
    change (0 <? S w) with true. rewrite andb_true_l.
    destruct (Nat.ltb_spec (5 * length found) (S w)) as [Hlt|Hge].
    + apply bool_decide_eq_true_2. apply ratio_lt; lia.
    + apply bool_decide_eq_false_2. rewrite ratio_lt; lia.
Qed.

(** *** Metrics without context *)

(** C1: a record whose [contextChunks] is the empty sequence is scored with
    context utilization 0, answer grounding 0, citation coverage 0 and
    hallucination score 1, whatever its query, response and sources (absent
    sources included) and whatever the metrics gathered before; the call
    returns. *)
Theorem trackQuery_empty_context (metrics : Metrics.t)
  (query response : string) (sources : option (list Citation.t))
  (ttftMs totalTimeMs tokensGenerated topSimilarity avgSimilarity : Q) :
  let data :=
    QueryRecord.mk query response sources (Some []) ttftMs totalTimeMs
      tokensGenerated topSimilarity avgSimilarity in
  ∃ result : QueryMetrics.t,
    (trackQuery metrics data).2 = JS.Returns result
    ∧ QueryMetrics.contextUtilization result = 0%Q
    ∧ QueryMetrics.answerGrounding result = 0%Q
    ∧ QueryMetrics.citationCoverage result = 0%Q
    ∧ QueryMetrics.hallucinationScore result = 1%Q.
Proof.
  cbv zeta. eexists. split; [reflexivity|].
  simpl. repeat split.
Qed.

(** *** Hallucination score and grounding *)

Lemma noContext_cons (c : Chunk.t) (cs : list Chunk.t) :
  noContext (Some (c :: cs)) = false.
Proof. reflexivity. Qed.

(** The pieces of [split] that are not empty are the runs between the
    separators. *)
Lemma splitRunsFrom_head (sep : ascii → bool) (s : string) :
  ∃ piece rest,
    JS.splitRunsFrom sep false s = piece :: rest
    ∧ match s with
      | EmptyString => piece = EmptyString ∧ rest = []
      | String d _ =>
          if sep d then piece = EmptyString
          else ∃ d' piece', piece = String d' piece'
      end.
Proof.
  destruct s as [|d s]; simpl.
  - eexists _, _. split; [reflexivity|]. split; reflexivity.
  - destruct (sep d).
    + eexists _, _. split; reflexivity.
    + destruct (JS.splitRunsFrom sep false s) as [|piece rest];
        eexists _, _; (split; [reflexivity|]); eexists _, _; reflexivity.
Qed.

Lemma splitRunsFrom_runs (sep : ascii → bool) (inRun : bool) (s : string) :
  List.filter (λ piece, 0 <? String.length piece)
    (JS.splitRunsFrom sep inRun s)
  = Spec.runs sep s.
Proof.
  set (nonEmpty := λ piece, 0 <? String.length piece).
  assert (Hnil : ∀ l,
    List.filter nonEmpty (EmptyString :: l) = List.filter nonEmpty l).
  { reflexivity. }
  assert (Hsome : ∀ d p l,
    List.filter nonEmpty (String d p :: l)
    = String d p :: List.filter nonEmpty l).
  { reflexivity. }
  revert inRun. induction s as [|c s IH]; intros inRun; [reflexivity|].
  cbn [JS.splitRunsFrom Spec.runs].
  destruct (sep c) eqn:Hc.
  - destruct inRun; [apply IH|]. rewrite Hnil. apply IH.
  - specialize (IH false).
    destruct (splitRunsFrom_head sep s) as (piece & rest & Heq & Hhead).
    rewrite Heq in IH |- *. rewrite Hsome.
    destruct s as [|d s'].
    + destruct Hhead as [-> ->]. reflexivity.
    + destruct (sep d) eqn:Hd.
      * subst piece. rewrite Hnil in IH. rewrite IH. reflexivity.
      * destruct Hhead as (d' & piece' & ->).
        rewrite Hsome in IH. rewrite <- IH. reflexivity.
Qed.

Lemma filter_splitRuns (P : string → bool) (sep : ascii → bool) (s : string) :
  P EmptyString = false →
  List.filter P (JS.splitRuns sep s) = List.filter P (Spec.runs sep s).
Proof.
  intros Hempty. unfold JS.splitRuns.
  rewrite <- (splitRunsFrom_runs sep false s).
  induction (JS.splitRunsFrom sep false s) as [|piece l IH]; [reflexivity|].
  cbn [List.filter]. destruct piece as [|d piece].
  - rewrite Hempty. cbn [String.length Nat.ltb Nat.leb]. exact IH.
  - cbn [String.length]. change (0 <? S _) with true. cbv iota.
    cbn [List.filter]. rewrite IH. reflexivity.
Qed.

Lemma runs_ext (sep1 sep2 : ascii → bool) (s : string) :
  (∀ c, sep1 c = sep2 c) → Spec.runs sep1 s = Spec.runs sep2 s.
Proof.
  intros Hext. induction s as [|c s IH]; [reflexivity|].
  cbn [Spec.runs]. rewrite Hext, IH.
  destruct s as [|d s']; [reflexivity|]. rewrite (Hext d). reflexivity.
Qed.

Lemma isSentenceEnd_isTerminator (c : ascii) :
  Spec.isSentenceEnd c = isTerminator c.
Proof.
  unfold Spec.isSentenceEnd, isTerminator. symmetry.
  destruct (Ascii.eqb_spec c ".") as [->|Hdot]; [reflexivity|].
  destruct (Ascii.eqb_spec c "!") as [->|Hbang]; [reflexivity|].
  destruct (Ascii.eqb_spec c "?") as [->|Hmark]; [reflexivity|].
  apply bool_decide_eq_false_2.
  rewrite !elem_of_cons, elem_of_nil. tauto.
Qed.

Lemma longSentences_spec (response : string) :
  Spec.longSentences response = longSentences response.
Proof.
  unfold Spec.longSentences, longSentences, splitSentences.
  rewrite filter_splitRuns by reflexivity.
  rewrite (runs_ext _ _ response isSentenceEnd_isTerminator). reflexivity.
Qed.

Lemma contentWords_spec (sentence : string) :
  Spec.contentWords sentence = contentWords sentence.
Proof.
  unfold Spec.contentWords, contentWords, splitWords.
  rewrite filter_splitRuns by reflexivity. reflexivity.
Qed.

Lemma contextText_spec (chunks : list Chunk.t) :
  Spec.contextText chunks = contextTextOf chunks.
Proof.
  unfold Spec.contextText, contextTextOf.
  destruct (map _ chunks) as [|t rest]; [reflexivity|].
  revert t. induction rest as [|r rest IH]; intros t.
  - cbn [Spec.spaced fold_right JS.join].
    induction t as [|c t IHt]; [reflexivity|].
    change (String c t +:+ EmptyString) with (String c (t +:+ EmptyString)).
    rewrite IHt. reflexivity.
  - specialize (IH r). cbn [Spec.spaced fold_right] in IH |- *.
    change (JS.join " " (t :: r :: rest))
      with (t +:+ " " +:+ JS.join " " (r :: rest)).
    rewrite <- IH. reflexivity.
Qed.

Lemma rate_spec (contextText sentence : string) :
  Spec.rate contextText sentence
  = let words := contentWords sentence in
    if 0 <? length words
    then Some (JS.ratio
                 (length (List.filter (λ w, JS.includes contextText w) words))
                 (length words))
    else None.
Proof.
  unfold Spec.rate, Spec.fractionOf. rewrite contentWords_spec. cbv zeta.
  destruct (length (contentWords sentence)); reflexivity.
Qed.

Lemma flagged_spec (contextText sentence : string) :
  Spec.flagged contextText sentence
  = JS.lt (matchRate contextText sentence) (2 # 10).
Proof.
  unfold Spec.flagged, matchRate. rewrite rate_spec. cbv zeta.
  set (words := contentWords sentence).
  set (found := List.filter _ words).
  assert (Hle : length found ≤ length words) by apply filter_length_le.
  destruct (length words) as [|w] eqn:Hw.
  - assert (length found = 0) as -> by lia. reflexivity.
  - change (0 <? S w) with true. cbv iota. unfold JS.divide, JS.lt.
    change (2 # 10)%Q with (JS.ratio 2 10).
    change (20 # 100)%Q with (JS.ratio 20 100).
    destruct (Nat.ltb_spec (5 * length found) (S w)) as [Hlt|Hge].
    + rewrite !bool_decide_eq_true_2; [reflexivity| |]; apply ratio_lt; lia.
    + rewrite !bool_decide_eq_false_2; [reflexivity| |]; rewrite ratio_lt; lia.
Qed.

Lemma grounded_spec (contextText sentence : string) :
  Spec.grounded contextText sentence
  = JS.gt (matchRate contextText sentence) (3 # 10).
Proof.
  unfold Spec.grounded, matchRate. rewrite rate_spec. cbv zeta.
  set (words := contentWords sentence).
  set (found := List.filter _ words).
  assert (Hle : length found ≤ length words) by apply filter_length_le.
  destruct (length words) as [|w] eqn:Hw.
  - assert (length found = 0) as -> by lia. reflexivity.
  - change (0 <? S w) with true. cbv iota. unfold JS.divide, JS.gt.
    change (3 # 10)%Q with (JS.ratio 3 10).
    change (30 # 100)%Q with (JS.ratio 30 100).
    destruct (Nat.ltb_spec (3 * S w) (10 * length found)) as [Hlt|Hge].
    + rewrite !bool_decide_eq_true_2; [reflexivity| |]; apply ratio_lt; lia.
    + rewrite !bool_decide_eq_false_2; [reflexivity| |]; rewrite ratio_lt; lia.
Qed.

(** C3: with context, the hallucination score is the fraction of the long
    sentences of the response (what lies between runs of [.], [!], [?] and
    has a trimmed length above 20) whose rate of content words (the
    lower-cased words longer than 4) found as substrings of the context text
    (the lower-cased texts of the chunks with a space between neighbours) is
    below 20%; a sentence without content words has no rate and is not
    counted, and over no long sentence the fraction is 0.  With absent or
    empty context the score is 1.  The sentences, the words, the context text
    and the rate on the right are defined apart from the code. *)
Theorem detectHallucination_fraction (response : string) :
  detectHallucination response None = 1%Q
  ∧ detectHallucination response (Some []) = 1%Q
  ∧ ∀ (c : Chunk.t) (cs : list Chunk.t),
      detectHallucination response (Some (c :: cs))
      = Spec.fractionOf (Spec.flagged (Spec.contextText (c :: cs)))
          (Spec.longSentences response).
Proof.
  split; [reflexivity|]. split; [reflexivity|].
  intros c cs. unfold detectHallucination.
  rewrite noContext_cons. cbn [default from_option id].
  rewrite fold_left_count. cbn [Nat.add].
  rewrite longSentences_spec, contextText_spec. unfold Spec.fractionOf.
  rewrite (filter_ext _ _ (flagged_spec (contextTextOf (c :: cs)))).
  destruct (longSentences response) as [|s l]; reflexivity.
Qed.

(** C10: with context present, a response none of whose sentences has a
    trimmed length above 20 gets answer grounding 0 and hallucination
    score 0 (not 1). *)
Theorem short_sentences_score_zero (response : string)
  (c : Chunk.t) (cs : list Chunk.t) :
  Forall (λ s, String.length (JS.trim s) ≤ 20) (splitSentences response) →
  calculateGrounding response (Some (c :: cs)) = 0%Q
  ∧ detectHallucination response (Some (c :: cs)) = 0%Q.
Proof.
  intros Hshort.
  assert (Hnone : longSentences response = []).
  { unfold longSentences.
    induction Hshort as [|s l Hs _ IH]; [reflexivity|].
    simpl. destruct (Nat.ltb_spec 20 (String.length (JS.trim s))); [lia|].
    exact IH. }
  unfold calculateGrounding, detectHallucination.
  rewrite noContext_cons, Hnone. split; reflexivity.
Qed.

Lemma short_sentences_score_zero_witness :
  Forall (λ s, String.length (JS.trim s) ≤ 20)
    (splitSentences "It is blue. Yes! Why not?")
  ∧ calculateGrounding "It is blue. Yes! Why not?" (Some [Sample.skyChunk])
    = 0%Q
  ∧ detectHallucination "It is blue. Yes! Why not?" (Some [Sample.skyChunk])
    = 0%Q.
Proof.
  assert (Hshort : Forall (λ s, String.length (JS.trim s) ≤ 20)
                     (splitSentences "It is blue. Yes! Why not?")).
  { vm_compute. repeat constructor. }
  split; [exact Hshort|].
  apply (short_sentences_score_zero _ Sample.skyChunk [] Hshort).
Defined.

(** *** Retrieval precision *)

(** C4: the retrieval precision does not depend on [topSimilarity] and
    [avgSimilarity]: any two choices of them give the same value, which for
    a non-empty context is the fraction of the chunks whose similarity
    exceeds 0.5 and without context is 0. *)
Theorem calculateRetrievalPrecision_ignores_similarity
  (contextChunks : option (list Chunk.t)) (top1 avg1 top2 avg2 : Q) :
  calculateRetrievalPrecision contextChunks top1 avg1
  = calculateRetrievalPrecision contextChunks top2 avg2
  ∧ calculateRetrievalPrecision contextChunks top1 avg1
    = match contextChunks with
      | Some (c :: cs) =>
          Spec.fractionOf (λ c, bool_decide (1 # 2 < Chunk.similarity c)%Q)
            (c :: cs)
      | _ => 0%Q
      end.
Proof.
  split; [reflexivity|].
  destruct contextChunks as [[|c cs]|]; reflexivity.
Qed.

(** *** Repetition score *)

Lemma map_trim_keptSentences (text : string) :
  map JS.trim (keptSentences text) = Spec.sentences text.
Proof.
  unfold keptSentences, Spec.sentences.
  induction (splitSentences text) as [|s l IH]; [reflexivity|].
  simpl. destruct (JS.trim s) eqn:Ht; simpl.
  - exact IH.
  - rewrite Ht, IH. reflexivity.
Qed.

Lemma forms_keptSentences (text : string) :
  map normalize (keptSentences text)
  = map JS.toLowerCase (Spec.sentences text).
Proof.
  rewrite <- map_trim_keptSentences, map_map. reflexivity.
Qed.

(** The loop of [calculateRepetition], started after the sentences [pre]
    with their forms in [seen], counts the positions of [suf] whose form
    occurred earlier. *)
Lemma fold_left_repetitionStep (suf pre : list string) (count : nat) :
  fold_left repetitionStep suf (count, list_to_set (map normalize pre))
  = (count
     + length
         (List.filter (Spec.occurredEarlier (map normalize (pre ++ suf)))
            (seq (length pre) (length suf))),
     list_to_set (map normalize (pre ++ suf))).
Proof.
  revert pre count. induction suf as [|s suf IH]; intros pre count.
  - simpl. rewrite app_nil_r. f_equal. lia.
  - cbn [fold_left repetitionStep].
    fold (normalize s).
    assert (Hseen : list_to_set (map normalize pre) ∪ {[normalize s]}
                    = list_to_set (C := gset string) (map normalize (pre ++ [s]))).
    { rewrite map_app, list_to_set_app_L. cbn [map].
      f_equal. symmetry. apply leibniz_equiv, list_to_set_singleton. }
    rewrite Hseen, IH.
    rewrite <- app_assoc. cbn [app].
    rewrite length_app. cbn [length seq List.filter].
    replace (length pre + 1) with (S (length pre)) by lia.
    assert (Hhere : Spec.occurredEarlier (map normalize (pre ++ s :: suf))
                      (length pre)
                    = bool_decide
                        (normalize s
                         ∈ list_to_set (C := gset string) (map normalize pre))).
    { unfold Spec.occurredEarlier.
      rewrite map_app. cbn [map].
      rewrite lookup_app_r by (rewrite length_map; lia).
      rewrite length_map, Nat.sub_diag. cbn [lookup list_lookup].
      rewrite take_app_length' by (rewrite length_map; reflexivity).
      apply bool_decide_ext. rewrite elem_of_list_to_set. reflexivity. }
    rewrite Hhere.
    destruct (bool_decide _); cbn [length]; f_equal; lia.
Qed.


(** *** Query classification *)

(** C6: [classifyQuery] returns the category of the first rule, in the order
    question, summary, comparison, generation, whose words match the
    lower-cased query, and [other] when none does.  Hence a query with an
    interrogative word and comparison vocabulary is a [question], and
    "Compare the methodologies used in paper A and paper B" is a
    [comparison]. *)
Theorem classifyQuery_first_match (query : string) :
  classifyQuery query = Spec.firstMatch (JS.toLowerCase query)
  ∧ (JS.testWords questionWords (JS.toLowerCase query) = true →
     JS.testWords comparisonWords (JS.toLowerCase query) = true →
     classifyQuery query = question)
  ∧ classifyQuery "Compare the methodologies used in paper A and paper B"
    = comparison.
Proof.
  split; [|split].
  - unfold classifyQuery, Spec.firstMatch, Spec.rules. cbn [List.find fst snd].
    repeat (destruct (JS.testWords _ _); [reflexivity|]).
    reflexivity.
  - intros Hq _. unfold classifyQuery. rewrite Hq. reflexivity.
  - vm_compute. reflexivity.
Qed.

Lemma classifyQuery_first_match_witness :
  JS.testWords questionWords (JS.toLowerCase "How do A and B compare?") = true
  ∧ JS.testWords comparisonWords (JS.toLowerCase "How do A and B compare?")
    = true
  ∧ classifyQuery "How do A and B compare?" = question.
Proof.
  split; [vm_compute; reflexivity|]. split; [vm_compute; reflexivity|].
  apply (classifyQuery_first_match "How do A and B compare?");
    vm_compute; reflexivity.
Defined.

(** *** Aggregation *)

#[global] Instance Qle_total : Total Qle.
Proof.
  intros x y. destruct (Qlt_le_dec x y) as [Hlt|Hle].
  - left. apply Qlt_le_weak, Hlt.
  - right. exact Hle.
Qed.

Lemma sortAscending_Permutation (arr : list Q) : JS.sortAscending arr ≡ₚ arr.
Proof. apply merge_sort_Permutation. Qed.

Lemma sortAscending_Sorted (arr : list Q) : Sorted Qle (JS.sortAscending arr).
Proof. apply (Sorted_merge_sort Qle). Qed.

Lemma sortAscending_length (arr : list Q) :
  length (JS.sortAscending arr) = length arr.
Proof. apply Permutation_length, sortAscending_Permutation. Qed.

Lemma index_lookup {A : Type} (arr : list A) (i : nat) :
  JS.index arr (Z.of_nat i) = arr !! i.
Proof.
  unfold JS.index. destruct (Z.ltb_spec (Z.of_nat i) 0); [lia|].
  rewrite Nat2Z.id. reflexivity.
Qed.

(** [Math.ceil(0.95 * n)] in integer arithmetic. *)
Lemma Qceiling_95 (n : nat) :
  Qceiling (95 / 100 * JS.ofNat n) = (- (- (95 * Z.of_nat n) / 100))%Z.
Proof.
  unfold Qceiling, Qfloor, JS.ofNat.
  cbn [Qopp Qmult Qdiv Qinv inject_Z Qnum Qden].
  replace (95 * 1 * Z.of_nat n)%Z with (95 * Z.of_nat n)%Z by lia.
  reflexivity.
Qed.

(** The nearest rank of the 95th percentile in closed form; it is a valid
    index of a non-empty array. *)
Lemma nearestRank_95 (n : nat) :
  0 < n → Spec.nearestRank 95 n = (95 * n - 1) / 100.
Proof.
  intros Hn. unfold Spec.nearestRank. rewrite Qceiling_95.
  apply Nat2Z.inj. rewrite Nat2Z.inj_div, Z2Nat.id by lia.
  rewrite Nat2Z.inj_sub, Nat2Z.inj_mul by lia.
  change (Z.of_nat 95) with 95%Z. change (Z.of_nat 100) with 100%Z.
  change (Z.of_nat 1) with 1%Z.
  Z.to_euclidean_division_equations. lia.
Qed.

Lemma nearestRank_95_lt (n : nat) : 0 < n → Spec.nearestRank 95 n < n.
Proof.
  intros Hn. rewrite nearestRank_95 by exact Hn.
  apply Nat.Div0.div_lt_upper_bound. lia.
Qed.

Lemma percentile_95 (arr : list Q) :
  arr ≠ [] →
  percentile arr 95
  = JS.sortAscending arr !! Spec.nearestRank 95 (length arr).
Proof.
  intros Harr. unfold percentile.
  destruct arr as [|a arr]; [done|].
  change (length (a :: arr) =? 0) with false. cbv iota.
  rewrite sortAscending_length.
  rewrite <- index_lookup. f_equal.
  unfold Spec.nearestRank. rewrite Z2Nat.id by lia. reflexivity.
Qed.

(** C7: over a non-empty sequence of generation times, the 95th-percentile
    aggregate is the element at index [max(0, ceil(95/100 * n) - 1)] of the
    sequence sorted in ascending order, [n] being its length; that index,
    [(95 * n - 1) / 100] in integers, is within the bounds. *)
Theorem p95TotalGenTime_nearest_rank (metrics : Metrics.t) :
  let times := Metrics.totalGenTime metrics in
  let sorted := JS.sortAscending times in
  let rank := Spec.nearestRank 95 (length times) in
  times ≠ [] →
  Sorted Qle sorted
  ∧ sorted ≡ₚ times
  ∧ rank = (95 * length times - 1) / 100
  ∧ ∃ x : Q,
      sorted !! rank = Some x
      ∧ Stats.p95TotalGenTime (Stats.performance (getAggregatedStats metrics))
        = Some x.
Proof.
  intros times sorted rank Htimes.
  assert (Hn : 0 < length times) by (destruct times; [done | simpl; lia]).
  split; [apply sortAscending_Sorted|].
  split; [apply sortAscending_Permutation|].
  split; [apply nearestRank_95, Hn|].
  destruct (lookup_lt_is_Some_2 sorted rank) as [x Hx].
  { unfold sorted. rewrite sortAscending_length.
    apply nearestRank_95_lt, Hn. }
  exists x. split; [exact Hx|].
  cbn [getAggregatedStats Stats.performance Stats.p95TotalGenTime].
  fold times. rewrite percentile_95 by exact Htimes. exact Hx.
Qed.

Lemma p95TotalGenTime_nearest_rank_witness :
  Metrics.totalGenTime Sample.metrics ≠ []
  ∧ ∃ x : Q,
      JS.sortAscending (Metrics.totalGenTime Sample.metrics)
        !! Spec.nearestRank 95 (length (Metrics.totalGenTime Sample.metrics))
      = Some x
      ∧ Stats.p95TotalGenTime
          (Stats.performance (getAggregatedStats Sample.metrics))
        = Some x.
Proof.
  assert (Htimes : Metrics.totalGenTime Sample.metrics ≠ []).
  { vm_compute. discriminate. }
  split; [exact Htimes|].
  apply (p95TotalGenTime_nearest_rank Sample.metrics Htimes).
Defined.

Lemma index_is_Some {A : Type} (arr : list A) (i : Z) :
  (0 ≤ i < Z.of_nat (length arr))%Z → is_Some (JS.index arr i).
Proof.
  intros Hi. rewrite <- (Z2Nat.id i) by lia. rewrite index_lookup.
  apply lookup_lt_is_Some_2. lia.
Qed.

(** The median never reads outside the sorted array. *)
Lemma median_is_Some (arr : list Q) : is_Some (median arr).
Proof.
  unfold median. destruct (Nat.eqb_spec (length arr) 0) as [|Hne]; [eauto|].
  cbv zeta. rewrite sortAscending_length.
  set (sorted := JS.sortAscending arr).
  assert (Hlen : length sorted = length arr) by apply sortAscending_length.
  set (mid := (Z.of_nat (length arr) / 2)%Z).
  assert (Hmid : (0 ≤ mid < Z.of_nat (length arr))%Z).
  { unfold mid. split; [apply Z.div_pos; lia|].
    apply Z.div_lt_upper_bound; lia. }
  destruct (Nat.eqb_spec (length arr mod 2) 0) as [Heven|_].
  - assert (Hone : (1 ≤ mid)%Z).
    { unfold mid. apply Z.div_le_lower_bound; [lia|].
      destruct (length arr) as [|[|n]]; [lia | discriminate | lia]. }
    destruct (index_is_Some sorted (mid - 1)) as [a Ha]; [lia|].
    destruct (index_is_Some sorted mid) as [b Hb]; [lia|].
    rewrite Ha, Hb. simpl. eauto.
  - apply index_is_Some. lia.
Qed.

Lemma percentile_95_is_Some (arr : list Q) : is_Some (percentile arr 95).
Proof.
  destruct arr as [|a arr]; [simpl; eauto|].
  rewrite percentile_95 by done.
  apply lookup_lt_is_Some_2. rewrite sortAscending_length.
  apply nearestRank_95_lt. simpl. lia.
Qed.

(** C2: [getAggregatedStats] is total.  On the metrics of a freshly
    constructed instance every mean, median and percentile (and the least
    and greatest response length) is 0, and on any metrics the medians and
    the percentile are numbers: no read of a sorted array is out of bounds. *)
Theorem getAggregatedStats_fresh :
  getAggregatedStats constructor
  = Stats.mk
      (Stats.mkGeneration 0 (Some 0%Q) 0 0 0 0 0)
      (Stats.mkRag 0 0 0 0)
      (Stats.mkPerformance 0 (Some 0%Q) (Some 0%Q) 0)
      (Stats.mkEngagement 0 (QueryTypes.mk 0 0 0 0 0))
      (Stats.mkQuality 0 0 0)
  ∧ ∀ metrics : Metrics.t,
      let stats := getAggregatedStats metrics in
      is_Some (Stats.medianResponseLength (Stats.generation stats))
      ∧ is_Some (Stats.medianTotalGenTime (Stats.performance stats))
      ∧ is_Some (Stats.p95TotalGenTime (Stats.performance stats)).
Proof.
  split; [reflexivity|].
  intros metrics. cbn.
  split; [apply median_is_Some|].
  split; [apply median_is_Some | apply percentile_95_is_Some].
Qed.

(** *** Citation coverage *)

(** The size of the [Set] built from an array is the number of distinct
    values of the array. *)
Lemma size_list_to_set_distinct (l : list string) :
  size (list_to_set (C := gset string) l) = Spec.distinctCount l.
Proof.
  unfold Spec.distinctCount.
  rewrite <- (size_list_to_set (C := gset string) (remove_dups l))
    by apply NoDup_remove_dups.
  f_equal. apply set_eq. intros x.
  rewrite !elem_of_list_to_set, elem_of_remove_dups. reflexivity.
Qed.

Lemma distinctCount_cons_pos (x : string) (l : list string) :
  0 < Spec.distinctCount (x :: l).
Proof.
  rewrite <- size_list_to_set_distinct.
  assert (Hx : x ∈ list_to_set (C := gset string) (x :: l)).
  { apply elem_of_list_to_set. left. }
  destruct (size (list_to_set (C := gset string) (x :: l))) eqn:Hsize; [|lia].
  apply size_empty_inv in Hsize. rewrite Hsize in Hx.
  exfalso. exact (not_elem_of_empty x Hx).
Qed.

Lemma calculateCitationCoverage_cons (sources : list Citation.t)
  (c : Chunk.t) (cs : list Chunk.t) :
  calculateCitationCoverage (Some sources) (Some (c :: cs))
  = JS.Returns
      (JS.ratio (Spec.distinctCount (map Citation.source sources))
         (Spec.distinctCount (map Chunk.source (c :: cs)))).
Proof.
  unfold calculateCitationCoverage. rewrite noContext_cons.
  cbn [default from_option id]. rewrite !size_list_to_set_distinct.
  reflexivity.
Qed.

(** C9: for a non-empty [contextChunks] and a [sources] list, the citation
    coverage is the number of distinct sources of the list divided by the
    number of distinct sources of the chunks (which is positive), and
    nothing clamps it: when the list names more distinct sources than the
    chunks have, the coverage exceeds 1. *)
Theorem calculateCitationCoverage_unclamped (sources : list Citation.t)
  (c : Chunk.t) (cs : list Chunk.t) :
  let cited := Spec.distinctCount (map Citation.source sources) in
  let available := Spec.distinctCount (map Chunk.source (c :: cs)) in
  0 < available
  ∧ calculateCitationCoverage (Some sources) (Some (c :: cs))
    = JS.Returns (JS.ratio cited available)
  ∧ (available < cited →
     ∃ coverage : Q,
       calculateCitationCoverage (Some sources) (Some (c :: cs))
       = JS.Returns coverage
       ∧ (1 < coverage)%Q).
Proof.
  intros cited available.
  assert (Hpos : 0 < available) by apply distinctCount_cons_pos.
  split; [exact Hpos|]. split; [apply calculateCitationCoverage_cons|].
  intros Hmore. exists (JS.ratio cited available).
  split; [apply calculateCitationCoverage_cons|].
  change 1%Q with (JS.ratio 1 1). apply ratio_lt; lia.
Qed.

Lemma calculateCitationCoverage_unclamped_witness :
  Spec.distinctCount (map Chunk.source [Sample.skyChunk; Sample.seaChunk])
  < Spec.distinctCount (map Citation.source Sample.citations)
  ∧ ∃ coverage : Q,
      calculateCitationCoverage (Some Sample.citations)
        (Some [Sample.skyChunk; Sample.seaChunk])
      = JS.Returns coverage
      ∧ (1 < coverage)%Q.
Proof.
  assert (Hmore :
    Spec.distinctCount (map Chunk.source [Sample.skyChunk; Sample.seaChunk])
    < Spec.distinctCount (map Citation.source Sample.citations)).
  { vm_compute. lia. }
  split; [exact Hmore|].
  apply (calculateCitationCoverage_unclamped Sample.citations Sample.skyChunk
           [Sample.seaChunk]).
  exact Hmore.
Defined.

(** *** One call, one measurement *)

Lemma counter_increment (queryType t : QueryType) (c : QueryTypes.t) :
  Spec.counter t (increment queryType c)
  = Spec.counter t c + (if decide (t = queryType) then 1 else 0).
Proof.
  destruct queryType, t; simpl; lia.
Qed.

Lemma total_increment (queryType : QueryType) (c : QueryTypes.t) :
  Spec.total (increment queryType c) = S (Spec.total c).
Proof.
  destruct queryType; unfold Spec.total; simpl; lia.
Qed.

Lemma calculateCitationCoverage_returns (data : QueryRecord.t) :
  Spec.callReturns data = true →
  ∃ coverage : Q,
    calculateCitationCoverage (QueryRecord.sources data)
      (QueryRecord.contextChunks data) = JS.Returns coverage.
Proof.
  unfold Spec.callReturns, calculateCitationCoverage.
  destruct (QueryRecord.sources data) as [sources|]; intros Hret.
  - destruct (noContext _); eauto.
  - rewrite Hret. eauto.
Qed.

Lemma calculateCitationCoverage_throws (data : QueryRecord.t) :
  Spec.callReturns data = false →
  calculateCitationCoverage (QueryRecord.sources data)
    (QueryRecord.contextChunks data) = JS.Throws.
Proof.
  unfold Spec.callReturns, calculateCitationCoverage.
  destruct (QueryRecord.sources data) as [sources|]; intros Hret;
    [discriminate|].
  rewrite Hret. reflexivity.
Qed.

(** A call that returns extends each of the fourteen sequences by one element
    and adds one to the counter of the query's type. *)
Lemma trackQuery_push (metrics : Metrics.t) (data : QueryRecord.t) :
  Spec.callReturns data = true →
  (∃ result : QueryMetrics.t, (trackQuery metrics data).2 = JS.Returns result)
  ∧ Forall
      (λ sequence : Metrics.t → list Q,
         ∃ x : Q, sequence (trackQuery metrics data).1 = sequence metrics ++ [x])
      Spec.perQuerySequences
  ∧ Metrics.queryTypes (trackQuery metrics data).1
    = increment (classifyQuery (QueryRecord.query data))
        (Metrics.queryTypes metrics).
Proof.
  intros Hret.
  destruct (calculateCitationCoverage_returns data Hret) as [coverage Hcov].
  unfold trackQuery. cbv zeta. rewrite Hcov. cbn [fst snd].
  split; [eauto|]. split; [|reflexivity].
  unfold Spec.perQuerySequences.
  repeat (apply Forall_cons; split; [eexists; reflexivity|]).
  apply Forall_nil_2.
Qed.

(** A call that throws has extended six sequences and nothing else. *)
Lemma trackQuery_partial (metrics : Metrics.t) (data : QueryRecord.t) :
  Spec.callReturns data = false →
  (trackQuery metrics data).2 = JS.Throws
  ∧ Forall
      (λ sequence : Metrics.t → list Q,
         ∃ x : Q, sequence (trackQuery metrics data).1 = sequence metrics ++ [x])
      Spec.pushedBeforeCoverage
  ∧ Forall
      (λ sequence : Metrics.t → list Q,
         sequence (trackQuery metrics data).1 = sequence metrics)
      Spec.pushedAfterCoverage
  ∧ Metrics.queryTypes (trackQuery metrics data).1
    = Metrics.queryTypes metrics.
Proof.
  intros Hret. pose proof (calculateCitationCoverage_throws data Hret) as Hcov.
  unfold trackQuery. cbv zeta. rewrite Hcov. cbn [fst snd].
  split; [reflexivity|]. split; [|split; [|reflexivity]].
  - unfold Spec.pushedBeforeCoverage.
    repeat (apply Forall_cons; split; [eexists; reflexivity|]).
    apply Forall_nil_2.
  - unfold Spec.pushedAfterCoverage.
    repeat (apply Forall_cons; split; [reflexivity|]).
    apply Forall_nil_2.
Qed.

Lemma trackAll_lengths (ds : list QueryRecord.t) (metrics : Metrics.t) :
  Forall (λ d, Spec.callReturns d = true) ds →
  Forall
    (λ sequence : Metrics.t → list Q,
       length (sequence (Spec.trackAll metrics ds))
       = length (sequence metrics) + length ds)
    Spec.perQuerySequences
  ∧ Spec.total (Metrics.queryTypes (Spec.trackAll metrics ds))
    = Spec.total (Metrics.queryTypes metrics) + length ds.
Proof.
  intros Hall. revert metrics.
  induction Hall as [|d ds Hd _ IH]; intros metrics.
  - split; [|simpl; lia].
    apply Forall_forall. intros sequence _. simpl. lia.
  - destruct (IH (trackQuery metrics d).1) as [IHseq IHtotal].
    change (Spec.trackAll metrics (d :: ds))
      with (Spec.trackAll (trackQuery metrics d).1 ds).
    destruct (trackQuery_push metrics d Hd) as (_ & Hpush & Htypes).
    split.
    + rewrite Forall_forall in IHseq, Hpush. apply Forall_forall.
      intros sequence Hin.
      destruct (Hpush sequence Hin) as [x Hx].
      rewrite (IHseq sequence Hin), Hx, length_app. simpl. lia.
    + rewrite IHtotal, Htypes, total_increment. simpl. lia.
Qed.

(** C8: the code breaks the claim.  [calculateSourceDiversity] tests
    [!sources], [calculateCitationCoverage] does not: for a record without
    [sources] and with context, [trackQuery] throws when it reaches
    [sources.map], after it has extended six of the fourteen sequences and
    before it counts the query type.  One such call on a fresh instance
    leaves six sequences of length 1, eight of length 0 and counters that sum
    to 0.  On every other record the claim holds: the call returns, extends
    each of the fourteen sequences by one element and adds one to exactly one
    counter, and after [n] such calls on a fresh instance the fourteen
    lengths are [n] and the counters sum to [n]. *)
Theorem trackQuery_absent_sources_throws :
  (∀ (metrics : Metrics.t) (data : QueryRecord.t),
     Spec.callReturns data = false →
     let after := (trackQuery metrics data).1 in
     (trackQuery metrics data).2 = JS.Throws
     ∧ Forall
         (λ sequence : Metrics.t → list Q,
            ∃ x : Q, sequence after = sequence metrics ++ [x])
         Spec.pushedBeforeCoverage
     ∧ Forall
         (λ sequence : Metrics.t → list Q, sequence after = sequence metrics)
         Spec.pushedAfterCoverage
     ∧ Metrics.queryTypes after = Metrics.queryTypes metrics)
  ∧ (let after := Spec.trackAll constructor [Sample.absentSources] in
     map (λ sequence : Metrics.t → list Q, length (sequence after))
       Spec.perQuerySequences
     = [1; 1; 1; 1; 1; 1; 0; 0; 0; 0; 0; 0; 0; 0]
     ∧ Spec.total (Metrics.queryTypes after) = 0)
  ∧ (∀ (metrics : Metrics.t) (data : QueryRecord.t),
       Spec.callReturns data = true →
       let after := (trackQuery metrics data).1 in
       (∃ result : QueryMetrics.t,
          (trackQuery metrics data).2 = JS.Returns result)
       ∧ Forall
           (λ sequence : Metrics.t → list Q,
              ∃ x : Q, sequence after = sequence metrics ++ [x])
           Spec.perQuerySequences
       ∧ ∃ queryType : QueryType,
           ∀ t : QueryType,
             Spec.counter t (Metrics.queryTypes after)
             = Spec.counter t (Metrics.queryTypes metrics)
               + (if decide (t = queryType) then 1 else 0))
  ∧ (∀ ds : list QueryRecord.t,
       Forall (λ d, Spec.callReturns d = true) ds →
       let after := Spec.trackAll constructor ds in
       Forall
         (λ sequence : Metrics.t → list Q,
            length (sequence after) = length ds)
         Spec.perQuerySequences
       ∧ Spec.total (Metrics.queryTypes after) = length ds).
Proof.
  split; [|split; [|split]].
  - intros metrics data Hret after. apply trackQuery_partial, Hret.
  - split; reflexivity.
  - intros metrics data Hret after.
    destruct (trackQuery_push metrics data Hret) as (Hres & Hpush & Htypes).
    split; [exact Hres|]. split; [exact Hpush|].
    exists (classifyQuery (QueryRecord.query data)).
    intros t. subst after. rewrite Htypes. apply counter_increment.
  - intros ds Hall after. subst after.
    destruct (trackAll_lengths ds constructor Hall) as [Hseq Htotal].
    split; [|exact Htotal].
    rewrite Forall_forall in Hseq. apply Forall_forall.
    intros sequence Hin. rewrite (Hseq sequence Hin).
    revert Hin. unfold Spec.perQuerySequences.
    rewrite !elem_of_cons, elem_of_nil.
    intros H. repeat (destruct H as [->|H]; [reflexivity|]). done.
Qed.

Lemma trackQuery_absent_sources_throws_witness :
  Spec.callReturns Sample.absentSources = false
  ∧ (trackQuery constructor Sample.absentSources).2 = JS.Throws
  ∧ Forall (λ d, Spec.callReturns d = true) Sample.records
  ∧ Spec.total (Metrics.queryTypes (Spec.trackAll constructor Sample.records))
    = length Sample.records.
Proof.
  assert (Hthrows : Spec.callReturns Sample.absentSources = false)
    by reflexivity.
  assert (Hall : Forall (λ d, Spec.callReturns d = true) Sample.records)
    by (repeat constructor).
  split; [exact Hthrows|].
  split;
    [apply (trackQuery_absent_sources_throws), Hthrows|].
  split; [exact Hall|].
  apply (trackQuery_absent_sources_throws), Hall.
Defined.

(** *** Worked examples *)

(** Separators at the end leave an empty last piece, which the filters of
    the metrics drop. *)
Example splitSentences_sky :
  splitSentences "The sky is blue. The sky is blue."
  = ["The sky is blue"; " The sky is blue"; ""]%string.
Proof. reflexivity. Qed.

(** A long sentence without any word above 4 letters has the rate [0 / 0]:
    it is neither counted as grounded nor flagged; a long sentence foreign
    to the context is flagged. *)
Example detectHallucination_samples :
  detectHallucination "a b c d e f g h i j k l m n" (Some [Sample.skyChunk])
  = 0%Q
  ∧ calculateGrounding "a b c d e f g h i j k l m n" (Some [Sample.skyChunk])
    = 0%Q
  ∧ (detectHallucination "Bananas contain plenty of potassium"
       (Some [Sample.skyChunk]) == 1)%Q
  ∧ (detectHallucination
       "Rayleigh scattering explains it. Bananas contain plenty of potassium"
       (Some [Sample.skyChunk]) == 1 # 2)%Q.
Proof. vm_compute. repeat split; reflexivity. Qed.

(** The three sample queries: generation times 1200, 800 and 2000 have the
    95th percentile 2000 and the median 1200; one query of each of the
    types question, summary and comparison was counted. *)
Example sample_stats :
  Metrics.totalGenTime Sample.metrics = [1200; 800; 2000]%Q
  ∧ Stats.p95TotalGenTime
      (Stats.performance (getAggregatedStats Sample.metrics))
    = Some 2000%Q
  ∧ Stats.medianTotalGenTime
      (Stats.performance (getAggregatedStats Sample.metrics))
    = Some 1200%Q
  ∧ Metrics.queryTypes Sample.metrics = QueryTypes.mk 1 1 1 0 0.
Proof. vm_compute. repeat split; reflexivity. Qed.

(** ** Further properties of the metrics *)

(** *** Quotients of counts *)

Lemma ratio_le (a b c d : nat) :
  0 < b → 0 < d →
  (JS.ratio a b <= JS.ratio c d)%Q ↔ a * d ≤ c * b.
Proof.
  intros Hb Hd. unfold JS.ratio, JS.ofNat.
  destruct b as [|b]; [lia|]. destruct d as [|d]; [lia|].
  unfold Qle, Qdiv, Qmult, Qinv. simpl. lia.
Qed.

Lemma ratio_nonneg (a b : nat) : (0 <= JS.ratio a b)%Q.
Proof.
  unfold JS.ratio, JS.ofNat. destruct b as [|b].
  - unfold Qle, Qdiv, Qmult, Qinv. simpl. lia.
  - change 0%Q with (JS.ratio 0 1). apply ratio_le; lia.
Qed.

Lemma ratio_le_1 (a b : nat) : a ≤ b → (JS.ratio a b <= 1)%Q.
Proof.
  intros Hab. destruct b as [|b].
  - assert (a = 0) as -> by lia. unfold Qle. simpl. lia.
  - change 1%Q with (JS.ratio 1 1). apply ratio_le; lia.
Qed.

Lemma ratio_pos (a b : nat) : 0 < a → 0 < b → (0 < JS.ratio a b)%Q.
Proof.
  intros Ha Hb. change 0%Q with (JS.ratio 0 1). apply ratio_lt; lia.
Qed.

Lemma ratio_eq_1 (a b : nat) : 0 < b → (JS.ratio a b == 1)%Q ↔ a = b.
Proof.
  intros Hb. unfold JS.ratio, JS.ofNat.
  destruct b as [|b]; [lia|].
  unfold Qeq, Qdiv, Qmult, Qinv. simpl. lia.
Qed.

Lemma ratio_plus (a b n : nat) :
  0 < n → (JS.ratio a n + JS.ratio b n == JS.ratio (a + b) n)%Q.
Proof.
  intros Hn. unfold JS.ratio, JS.ofNat.
  rewrite Nat2Z.inj_add, inject_Z_plus.
  assert (Hnz : ~ (inject_Z (Z.of_nat n) == 0)%Q).
  { unfold Qeq. simpl. lia. }
  field. exact Hnz.
Qed.

(** *** Answer grounding *)

(** The test [matches.length / words.length > 0.3] of the source holds
    exactly when there are content words and more than three in ten match. *)
Lemma gt_matchRate (contextText sentence : string) :
  JS.gt (matchRate contextText sentence) (3 # 10)
  = Spec.rateAbove30 contextText sentence.
Proof.
  unfold matchRate, Spec.rateAbove30.
  set (words := contentWords sentence).
  set (found := List.filter _ words).
  assert (Hle : length found ≤ length words) by apply filter_length_le.
  destruct (length words) as [|w] eqn:Hw.
  - assert (length found = 0) as -> by lia. reflexivity.
  - unfold JS.divide, JS.gt.
    change (3 # 10)%Q with (JS.ratio 3 10).
    change (0 <? S w) with true. rewrite andb_true_l.
    destruct (Nat.ltb_spec (3 * S w) (10 * length found)) as [Hlt|Hge].
    + apply bool_decide_eq_true_2. apply ratio_lt; lia.
    + apply bool_decide_eq_false_2. rewrite ratio_lt; lia.
Qed.

Lemma calculateGrounding_cons (response : string)
  (c : Chunk.t) (cs : list Chunk.t) :
  calculateGrounding response (Some (c :: cs))
  = Spec.fractionOf (Spec.rateAbove30 (contextTextOf (c :: cs)))
      (longSentences response).
Proof.
  unfold calculateGrounding, Spec.fractionOf.
  rewrite noContext_cons. cbn [default from_option].
  destruct (length (longSentences response) =? 0); [reflexivity|].
  rewrite fold_left_count. cbn [Nat.add].
  rewrite (filter_ext _ _ (gt_matchRate (contextTextOf (c :: cs)))).
  reflexivity.
Qed.

Lemma detectHallucination_cons (response : string)
  (c : Chunk.t) (cs : list Chunk.t) :
  detectHallucination response (Some (c :: cs))
  = Spec.fractionOf (Spec.rateBelow20 (contextTextOf (c :: cs)))
      (longSentences response).
Proof.
  unfold detectHallucination, Spec.fractionOf.
  rewrite noContext_cons. cbn [default from_option].
  rewrite fold_left_count. cbn [Nat.add].
  rewrite (filter_ext _ _ (lt_matchRate (contextTextOf (c :: cs)))).
  destruct (longSentences response); reflexivity.
Qed.

(** X1: with context, the answer grounding is the fraction of the long
    sentences of the response (what lies between runs of [.], [!], [?] and
    has a trimmed length above 20) whose rate of content words found as
    substrings of the lower-cased, spaced context text is above 30%; a
    sentence without content words is not grounded, and over no long sentence
    the grounding is 0.  With absent or empty context it is 0.  The
    sentences, the words, the context text and the rate on the right are
    defined apart from the code. *)
Theorem calculateGrounding_fraction (response : string) :
  calculateGrounding response None = 0%Q
  ∧ calculateGrounding response (Some []) = 0%Q
  ∧ ∀ (c : Chunk.t) (cs : list Chunk.t),
      calculateGrounding response (Some (c :: cs))
      = Spec.fractionOf (Spec.grounded (Spec.contextText (c :: cs)))
          (Spec.longSentences response).
Proof.
  split; [reflexivity|]. split; [reflexivity|].
  intros c cs. unfold calculateGrounding, Spec.fractionOf.
  rewrite noContext_cons. cbn [default from_option id].
  rewrite longSentences_spec, contextText_spec.
  destruct (length (longSentences response) =? 0); [reflexivity|].
  rewrite fold_left_count. cbn [Nat.add].
  rewrite (filter_ext _ _ (grounded_spec (contextTextOf (c :: cs)))).
  reflexivity.
Qed.

Lemma filter_exclusive_length {A : Type} (P R : A → bool) (l : list A) :
  (∀ x, P x = true → R x = false) →
  length (List.filter P l) + length (List.filter R l) ≤ length l.
Proof.
  intros Hex. induction l as [|x l IH]; simpl; [lia|].
  destruct (P x) eqn:HP.
  - rewrite (Hex x HP). simpl. lia.
  - destruct (R x); simpl; lia.
Qed.

Lemma rateAbove30_not_below20 (contextText sentence : string) :
  Spec.rateAbove30 contextText sentence = true →
  Spec.rateBelow20 contextText sentence = false.
Proof.
  unfold Spec.rateAbove30, Spec.rateBelow20.
  intros Habove. apply andb_true_iff in Habove as [_ Habove].
  apply Nat.ltb_lt in Habove.
  apply andb_false_iff. right. apply Nat.ltb_ge. lia.
Qed.

(** X2: no sentence is both grounded and flagged as a possible
    hallucination, so with context the answer grounding and the
    hallucination score of a response add up to at most 1. *)
Theorem grounding_plus_hallucination_le_1 (response : string)
  (c : Chunk.t) (cs : list Chunk.t) :
  (calculateGrounding response (Some (c :: cs))
   + detectHallucination response (Some (c :: cs)) <= 1)%Q.
Proof.
  rewrite calculateGrounding_cons, detectHallucination_cons.
  unfold Spec.fractionOf.
  destruct (longSentences response) as [|s l] eqn:Hl; [done|].
  change (length (s :: l) =? 0) with false. cbv iota.
  rewrite ratio_plus by (simpl; lia).
  apply ratio_le_1. apply filter_exclusive_length.
  intros x. apply rateAbove30_not_below20.
Qed.

(** *** JavaScript strings *)

Lemma prefix_app (w post : string) : String.prefix w (w +:+ post) = true.
Proof.
  induction w as [|a w IH]; simpl.
  - destruct post; reflexivity.
  - destruct (ascii_dec a a) as [_|Hne]; [exact IH | done].
Qed.

Lemma prefix_occursIn (w s : string) :
  String.prefix w s = true → ∃ post : string, s = w +:+ post.
Proof.
  revert s. induction w as [|a w IH]; intros s Hp.
  - exists s. reflexivity.
  - destruct s as [|b s]; [simpl in Hp; discriminate|].
    simpl in Hp. destruct (ascii_dec a b) as [->|_]; [|discriminate].
    destruct (IH s Hp) as [post ->]. exists post. reflexivity.
Qed.

Lemma occursIn_String (c : ascii) (w s : string) :
  Spec.occursIn w s → Spec.occursIn w (String c s).
Proof.
  intros (pre & post & ->). exists (String c pre), post. reflexivity.
Qed.

(** [s.includes(w)] is true exactly when [w] occurs in [s]. *)
Lemma includes_occursIn (s w : string) :
  JS.includes s w = true ↔ Spec.occursIn w s.
Proof.
  split.
  - induction s as [|c s IH]; cbn [JS.includes]; intros Hinc.
    + rewrite orb_false_r in Hinc.
      destruct (prefix_occursIn _ _ Hinc) as [post ->].
      exists EmptyString, post. reflexivity.
    + apply orb_true_iff in Hinc as [Hp|Hrest].
      * destruct (prefix_occursIn _ _ Hp) as [post ->].
        exists EmptyString, post. reflexivity.
      * apply occursIn_String, IH, Hrest.
  - intros (pre & post & ->).
    induction pre as [|c pre IH].
    + change (EmptyString +:+ w +:+ post) with (w +:+ post).
      pose proof (prefix_app w post) as Hp.
      destruct (w +:+ post); cbn [JS.includes]; rewrite Hp; reflexivity.
    + change (String c pre +:+ w +:+ post)
        with (String c (pre +:+ w +:+ post)).
      cbn [JS.includes]. rewrite IH. apply orb_true_r.
Qed.

Lemma append_assoc (a b c : string) : (a +:+ b) +:+ c = a +:+ (b +:+ c).
Proof.
  induction a as [|x a IH]; [reflexivity|].
  change (String x ((a +:+ b) +:+ c) = String x (a +:+ b +:+ c)).
  f_equal. exact IH.
Qed.

Lemma occursIn_trans (w s t : string) :
  Spec.occursIn w s → Spec.occursIn s t → Spec.occursIn w t.
Proof.
  intros (pre & post & ->) (pre' & post' & ->).
  exists (pre' +:+ pre), (post +:+ post').
  rewrite !append_assoc. reflexivity.
Qed.

(** The pieces of a split; the first piece of a split that does not start
    inside a run of separators is a prefix of the string. *)
Lemma splitRunsFrom_pieces (sep : ascii → bool) (s : string) (inRun : bool) :
  Forall (λ piece, Spec.occursIn piece s) (JS.splitRunsFrom sep inRun s)
  ∧ (inRun = false →
     ∃ (piece : string) (rest : list string) (post : string),
       JS.splitRunsFrom sep inRun s = piece :: rest ∧ s = piece +:+ post).
Proof.
  revert inRun. induction s as [|c s IH]; intros inRun.
  - split.
    + repeat constructor. exists EmptyString, EmptyString. reflexivity.
    + intros _. exists EmptyString, [], EmptyString. split; reflexivity.
  - assert (Hlift : ∀ l, Forall (λ piece, Spec.occursIn piece s) l →
                         Forall (λ piece, Spec.occursIn piece (String c s)) l).
    { intros l Hl. eapply Forall_impl; [exact Hl|].
      intros piece. apply occursIn_String. }
    cbn [JS.splitRunsFrom]. destruct (sep c).
    + destruct inRun.
      * split; [apply Hlift, IH | discriminate].
      * split.
        -- constructor; [|apply Hlift, IH].
           exists EmptyString, (String c s). reflexivity.
        -- intros _. exists EmptyString, (JS.splitRunsFrom sep true s),
             (String c s). split; reflexivity.
    + destruct (IH false) as [Hall Hhead].
      destruct (Hhead eq_refl) as (piece & rest & post & Heq & Hs).
      rewrite Heq in Hall |- *.
      apply Forall_cons in Hall as [_ Hrest].
      split.
      * constructor; [|apply Hlift, Hrest].
        exists EmptyString, post. rewrite Hs. reflexivity.
      * intros _. exists (String c piece), rest, post.
        split; [reflexivity | rewrite Hs; reflexivity].
Qed.

Lemma splitRuns_occursIn (sep : ascii → bool) (s piece : string) :
  piece ∈ JS.splitRuns sep s → Spec.occursIn piece s.
Proof.
  intros Hin. pose proof (proj1 (splitRunsFrom_pieces sep s false)) as Hall.
  rewrite Forall_forall in Hall. apply Hall, Hin.
Qed.

(** A split never gives an empty array. *)
Lemma splitRunsFrom_length (sep : ascii → bool) (s : string) (inRun : bool) :
  0 < length (JS.splitRunsFrom sep inRun s).
Proof.
  revert inRun. induction s as [|c s IH]; intros inRun; simpl; [lia|].
  destruct (sep c).
  - destruct inRun; [apply IH | simpl; lia].
  - destruct (JS.splitRunsFrom sep false s); simpl; lia.
Qed.

(** [s.split(/a|b/)] has one piece more than [s] has separators. *)
Lemma splitEach_length (sep : ascii → bool) (s : string) :
  length (JS.splitEach sep s) = S (Spec.countChars sep s).
Proof.
  induction s as [|c s IH]; simpl; [reflexivity|].
  destruct (sep c); simpl.
  - rewrite IH. reflexivity.
  - destruct (JS.splitEach sep s); simpl in *; lia.
Qed.

(** [s.includes(c)] for one code unit [c]. *)
Lemma includes_char (s : string) (c : ascii) :
  JS.includes s (String c EmptyString)
  = (0 <? Spec.countChars (λ x, bool_decide (x = c)) s).
Proof.
  induction s as [|b s IH]; [reflexivity|].
  cbn [JS.includes String.prefix Spec.countChars].
  rewrite IH. destruct (ascii_dec c b) as [->|Hne].
  - rewrite bool_decide_eq_true_2 by reflexivity.
    destruct s; reflexivity.
  - rewrite bool_decide_eq_false_2 by congruence. reflexivity.
Qed.

Lemma toLowerChar_idempotent (c : ascii) :
  JS.toLowerChar (JS.toLowerChar c) = JS.toLowerChar c.
Proof.
  destruct c as [[] [] [] [] [] [] [] []]; reflexivity.
Qed.

(** Lower-casing a lower-cased string changes nothing. *)
Lemma toLowerCase_idempotent (s : string) :
  JS.toLowerCase (JS.toLowerCase s) = JS.toLowerCase s.
Proof.
  induction s as [|c s IH]; simpl; [reflexivity|].
  rewrite toLowerChar_idempotent, IH. reflexivity.
Qed.

(** A match of [/\b(a1|a2|...)\b/] contains one of the alternatives. *)
Lemma testWordsFrom_occursIn (alts : list string) (s : string)
  (before : option ascii) :
  JS.testWordsFrom alts before s = true →
  ∃ w : string, w ∈ alts ∧ Spec.occursIn w s.
Proof.
  revert before. induction s as [|c s IH]; intros before Htest;
    cbn [JS.testWordsFrom] in Htest;
    apply orb_true_iff in Htest as [Hhere|Hlater].
  - apply existsb_exists in Hhere as (w & Hin & Hm).
    unfold JS.matchWordAt in Hm.
    apply andb_true_iff in Hm as [Hm _]. apply andb_true_iff in Hm as [Hp _].
    exists w. split; [apply list_elem_of_In, Hin|].
    apply includes_occursIn. cbn [JS.includes]. rewrite Hp. reflexivity.
  - discriminate.
  - apply existsb_exists in Hhere as (w & Hin & Hm).
    unfold JS.matchWordAt in Hm.
    apply andb_true_iff in Hm as [Hm _]. apply andb_true_iff in Hm as [Hp _].
    exists w. split; [apply list_elem_of_In, Hin|].
    apply includes_occursIn. cbn [JS.includes]. rewrite Hp. reflexivity.
  - destruct (IH _ Hlater) as (w & Hin & Hocc).
    exists w. split; [exact Hin | apply occursIn_String, Hocc].
Qed.

(** *** Distinct values *)

Lemma distinctCount_le (l : list string) : Spec.distinctCount l ≤ length l.
Proof.
  unfold Spec.distinctCount.
  induction l as [|x l IH]; simpl; [lia|].
  destruct (decide_rel elem_of x l); simpl; lia.
Qed.

Lemma distinctCount_NoDup (l : list string) :
  Spec.distinctCount l = length l ↔ NoDup l.
Proof.
  unfold Spec.distinctCount. split.
  - induction l as [|x l IH]; simpl; intros Heq; [constructor|].
    pose proof (distinctCount_le l) as Hle. unfold Spec.distinctCount in Hle.
    destruct (decide_rel elem_of x l) as [Hin|Hnin]; simpl in Heq; [lia|].
    constructor; [exact Hnin | apply IH; lia].
  - induction 1 as [|x l Hnin _ IH]; simpl; [reflexivity|].
    destruct (decide_rel elem_of x l) as [Hin|_]; [done|].
    simpl. rewrite IH. reflexivity.
Qed.

Lemma size_list_to_set_le (l : list string) :
  size (list_to_set (C := gset string) l) ≤ length l.
Proof. rewrite size_list_to_set_distinct. apply distinctCount_le. Qed.

Lemma size_add_le (X : gset string) (x : string) :
  size (X ∪ {[x]}) ≤ S (size X).
Proof.
  rewrite size_union_alt.
  assert (size (({[x]} : gset string) ∖ X) ≤ size ({[x]} : gset string))
    as Hle.
  { apply subseteq_size. intros y Hy.
    apply elem_of_difference in Hy as [Hy _]. exact Hy. }
  rewrite size_singleton in Hle. lia.
Qed.

(** *** Lexical diversity *)

Lemma addBigrams_size (tokens : list string) (bigrams : gset string) :
  size (addBigrams tokens bigrams) ≤ size bigrams + (length tokens - 1).
Proof.
  revert bigrams. induction tokens as [|a rest IH]; intros bigrams;
    [simpl; lia|].
  destruct rest as [|b rest]; [simpl; lia|].
  change (addBigrams (a :: b :: rest) bigrams)
    with (addBigrams (b :: rest) (bigrams ∪ {[a +:+ "_" +:+ b]})).
  specialize (IH (bigrams ∪ {[a +:+ "_" +:+ b]})).
  pose proof (size_add_le bigrams (a +:+ "_" +:+ b)).
  simpl in *. lia.
Qed.

Lemma calculateDiversity_bounds (text : string) :
  let diversity := calculateDiversity text in
  1 ≤ Diversity.uniqueTokens diversity
  ∧ (0 < Diversity.distinct1 diversity)%Q
  ∧ (Diversity.distinct1 diversity <= 1)%Q
  ∧ (0 <= Diversity.distinct2 diversity)%Q
  ∧ (Diversity.distinct2 diversity <= 1)%Q.
Proof.
  cbv zeta. unfold calculateDiversity.
  set (tokens := splitWords (JS.toLowerCase text)).
  cbn [Diversity.uniqueTokens Diversity.distinct1 Diversity.distinct2].
  assert (Hlen : 0 < length tokens) by apply splitRunsFrom_length.
  assert (Hsize : 1 ≤ size (list_to_set (C := gset string) tokens)).
  { destruct tokens as [|t tokens]; [simpl in Hlen; lia|].
    rewrite size_list_to_set_distinct. apply distinctCount_cons_pos. }
  pose proof (size_list_to_set_le tokens) as Hle.
  pose proof (addBigrams_size tokens ∅) as Hbi. rewrite size_empty in Hbi.
  destruct (Nat.ltb_spec 0 (length tokens)) as [_|]; [|lia].
  split; [exact Hsize|].
  split; [apply ratio_pos; lia|].
  split; [apply ratio_le_1; lia|].
  destruct (1 <? length tokens).
  - split; [apply ratio_nonneg | apply ratio_le_1; lia].
  - split; done.
Qed.

(** X3: [text.split(/\s+/)] never gives an empty array, so the text has at
    least one token and one unique token, Distinct-1 is positive and at most
    1, and Distinct-2 lies between 0 and 1.  The empty text has the single
    token [""]: its Distinct-1 is 1, not 0. *)
Theorem calculateDiversity_range (text : string) :
  let diversity := calculateDiversity text in
  1 ≤ Diversity.uniqueTokens diversity
  ∧ (0 < Diversity.distinct1 diversity)%Q
  ∧ (Diversity.distinct1 diversity <= 1)%Q
  ∧ (0 <= Diversity.distinct2 diversity)%Q
  ∧ (Diversity.distinct2 diversity <= 1)%Q
  ∧ calculateDiversity "" = Diversity.mk 1 0 1.
Proof.
  destruct (calculateDiversity_bounds text) as (H1 & H2 & H3 & H4 & H5).
  repeat split; try assumption.
Qed.

(** *** Repetition and distinct sentences *)

(** Every round of the loop of [calculateRepetition] either counts a
    repetition or enlarges [seen]. *)
Lemma fold_left_repetitionStep_size (l : list string) (count : nat)
  (seen : gset string) :
  (fold_left repetitionStep l (count, seen)).1
  + size (fold_left repetitionStep l (count, seen)).2
  = count + size seen + length l.
Proof.
  revert count seen. induction l as [|s l IH]; intros count seen;
    [simpl; lia|].
  cbn [fold_left repetitionStep]. fold (normalize s).
  rewrite IH. cbn [length].
  destruct (decide (normalize s ∈ seen)) as [Hin|Hnin].
  - rewrite bool_decide_eq_true_2 by exact Hin.
    assert (Hsame : seen ∪ {[normalize s]} = seen).
    { apply set_eq. intros y. rewrite elem_of_union, elem_of_singleton.
      split; [intros [Hy| ->]; assumption | intros Hy; left; exact Hy]. }
    rewrite Hsame. lia.
  - rewrite bool_decide_eq_false_2 by exact Hnin.
    rewrite size_union, size_singleton; [lia|].
    intros y Hy Hy'. apply elem_of_singleton in Hy' as ->. exact (Hnin Hy).
Qed.

(** X4: the repetitions counted by [calculateRepetition] are the sentences
    beyond the distinct ones: with [n >= 2] sentences of which [k] have
    distinct lower-cased forms the score is [(n - k) / n].  The first
    sentence is never a repetition, so the score is below 1. *)
Theorem calculateRepetition_distinct (text : string) :
  let forms := map JS.toLowerCase (Spec.sentences text) in
  calculateRepetition text
  = (if length forms <? 2 then 0%Q
     else JS.ratio (length forms - Spec.distinctCount forms) (length forms))
  ∧ (0 <= calculateRepetition text)%Q
  ∧ (calculateRepetition text < 1)%Q.
Proof.
  cbv zeta. rewrite <- forms_keptSentences. rewrite length_map.
  unfold calculateRepetition. fold (keptSentences text).
  set (kept := keptSentences text).
  pose proof (fold_left_repetitionStep kept [] 0) as Hfold.
  pose proof (fold_left_repetitionStep_size kept 0 ∅) as Hsize.
  cbn [map app length Nat.add] in Hfold.
  change (list_to_set (C := gset string) []) with (∅ : gset string) in Hfold.
  rewrite Hfold in Hsize |- *. cbn [fst snd] in Hsize.
  rewrite size_empty, size_list_to_set_distinct in Hsize.
  set (repeated := length (List.filter _ _)) in *.
  assert (Hrep : repeated = length kept - Spec.distinctCount (map normalize kept))
    by lia.
  destruct (Nat.ltb_spec (length kept) 2) as [Hfew|Hmany].
  - split; [reflexivity|]. split; done.
  - rewrite Hrep. split; [reflexivity|].
    split; [apply ratio_nonneg|].
    change 1%Q with (JS.ratio 1 1). apply ratio_lt; [lia | lia |].
    assert (0 < Spec.distinctCount (map normalize kept)).
    { destruct kept as [|s kept']; [simpl in Hmany; lia|].
      apply distinctCount_cons_pos. }
    lia.
Qed.

(** *** Source diversity *)

(** X5: the source diversity of an absent or empty [sources] is 0; of a
    non-empty one it is positive and at most 1, and it is 1 exactly when no
    source is cited twice. *)
Theorem calculateSourceDiversity_range :
  calculateSourceDiversity None = 0%Q
  ∧ calculateSourceDiversity (Some []) = 0%Q
  ∧ ∀ (s : Citation.t) (ss : list Citation.t),
      let diversity := calculateSourceDiversity (Some (s :: ss)) in
      (0 < diversity)%Q
      ∧ (diversity <= 1)%Q
      ∧ ((diversity == 1)%Q ↔ NoDup (map Citation.source (s :: ss))).
Proof.
  split; [reflexivity|]. split; [reflexivity|].
  intros s ss. cbv zeta. unfold calculateSourceDiversity.
  change (length (s :: ss) =? 0) with false. cbv iota.
  rewrite size_list_to_set_distinct.
  pose proof (distinctCount_le (map Citation.source (s :: ss))) as Hle.
  pose proof (distinctCount_cons_pos (Citation.source s)
                (map Citation.source ss)) as Hpos.
  rewrite length_map in Hle. change (map Citation.source (s :: ss))
    with (Citation.source s :: map Citation.source ss) in *.
  split; [apply ratio_pos; simpl; lia|].
  split; [apply ratio_le_1; exact Hle|].
  rewrite ratio_eq_1 by (simpl; lia).
  rewrite <- distinctCount_NoDup. cbn [length]. rewrite length_map.
  reflexivity.
Qed.

(** *** Scores between 0 and 1 *)

Lemma fractionOf_unit {A : Type} (P : A → bool) (l : list A) :
  (0 <= Spec.fractionOf P l)%Q ∧ (Spec.fractionOf P l <= 1)%Q.
Proof.
  unfold Spec.fractionOf. destruct (length l =? 0); [done|].
  split; [apply ratio_nonneg | apply ratio_le_1, filter_length_le].
Qed.

Lemma calculateGrounding_unit (response : string)
  (contextChunks : option (list Chunk.t)) :
  (0 <= calculateGrounding response contextChunks)%Q
  ∧ (calculateGrounding response contextChunks <= 1)%Q.
Proof.
  destruct contextChunks as [[|c cs]|]; [done | | done].
  rewrite calculateGrounding_cons. apply fractionOf_unit.
Qed.

Lemma detectHallucination_unit (response : string)
  (contextChunks : option (list Chunk.t)) :
  (0 <= detectHallucination response contextChunks)%Q
  ∧ (detectHallucination response contextChunks <= 1)%Q.
Proof.
  destruct contextChunks as [[|c cs]|]; [done | | done].
  rewrite detectHallucination_cons. apply fractionOf_unit.
Qed.

Lemma calculateRetrievalPrecision_unit (contextChunks : option (list Chunk.t))
  (topSimilarity avgSimilarity : Q) :
  (0 <= calculateRetrievalPrecision contextChunks topSimilarity avgSimilarity)%Q
  ∧ (calculateRetrievalPrecision contextChunks topSimilarity avgSimilarity
     <= 1)%Q.
Proof.
  unfold calculateRetrievalPrecision.
  destruct (noContext contextChunks); [done|].
  split; [apply ratio_nonneg | apply ratio_le_1, filter_length_le].
Qed.

Lemma calculateRepetition_unit (text : string) :
  (0 <= calculateRepetition text)%Q ∧ (calculateRepetition text <= 1)%Q.
Proof.
  unfold calculateRepetition. fold (keptSentences text).
  destruct (length (keptSentences text) <? 2); [done|].
  pose proof (fold_left_repetitionStep (keptSentences text) [] 0) as Hfold.
  cbn [map app length Nat.add] in Hfold.
  change (list_to_set (C := gset string) []) with (∅ : gset string) in Hfold.
  rewrite Hfold.
  split; [apply ratio_nonneg|]. apply ratio_le_1.
  etransitivity; [apply filter_length_le|]. rewrite length_seq. done.
Qed.

Lemma calculateCompleteness_unit (query response : string) :
  (0 <= calculateCompleteness query response)%Q
  ∧ (calculateCompleteness query response <= 1)%Q.
Proof.
  unfold calculateCompleteness.
  destruct (length _ =? 0); [done|].
  split; [apply ratio_nonneg | apply ratio_le_1, filter_length_le].
Qed.

Lemma calculateSourceDiversity_unit (sources : option (list Citation.t)) :
  (0 <= calculateSourceDiversity sources)%Q
  ∧ (calculateSourceDiversity sources <= 1)%Q.
Proof.
  unfold calculateSourceDiversity. destruct sources as [sources|]; [|done].
  destruct (length sources =? 0); [done|].
  split; [apply ratio_nonneg|]. apply ratio_le_1.
  etransitivity; [apply size_list_to_set_le|]. rewrite length_map. done.
Qed.

Lemma NoDup_List_filter {A : Type} (P : A → bool) (l : list A) :
  NoDup l → NoDup (List.filter P l).
Proof.
  induction 1 as [|x l Hnin _ IH]; simpl; [constructor|].
  destruct (P x); [|exact IH].
  constructor; [|exact IH].
  intros Hin. apply Hnin.
  apply list_elem_of_In in Hin. apply filter_In in Hin as [Hin _].
  apply list_elem_of_In, Hin.
Qed.

(** The words counted by [calculateContextUtilization] are distinct words
    of the context. *)
Lemma calculateContextUtilization_unit (response : string)
  (contextChunks : option (list Chunk.t)) :
  (0 <= calculateContextUtilization response contextChunks)%Q
  ∧ (calculateContextUtilization response contextChunks <= 1)%Q.
Proof.
  unfold calculateContextUtilization.
  destruct (noContext contextChunks); [done|]. cbv zeta.
  set (contextWords := list_to_set (splitWords _) : gset string).
  set (responseWords := list_to_set (splitWords _) : gset string).
  destruct (0 <? size contextWords); [|done].
  split; [apply ratio_nonneg|]. apply ratio_le_1.
  rewrite (fold_left_count
             (λ word, bool_decide (word ∈ contextWords)
                      && (3 <? String.length word))).
  cbn [Nat.add].
  apply submseteq_length, NoDup_submseteq.
  - apply NoDup_List_filter, NoDup_elements.
  - intros word Hin. apply list_elem_of_In, filter_In in Hin as [_ Hin].
    apply andb_true_iff in Hin as [Hin _].
    apply bool_decide_eq_true in Hin. apply elem_of_elements, Hin.
Qed.

Lemma calculateQueryComplexity_bounds (query : string) :
  (0 < Complexity.complexity (calculateQueryComplexity query))%Q
  ∧ (Complexity.complexity (calculateQueryComplexity query) <= 10)%Q.
Proof.
  unfold calculateQueryComplexity. cbn [Complexity.complexity].
  split; [|apply Q.le_min_l].
  apply Q.min_glb_lt; [done|].
  pose proof (splitRunsFrom_length JS.isWhiteSpace query false) as Hwords.
  fold (JS.splitRuns JS.isWhiteSpace query) in Hwords.
  fold (splitWords query) in Hwords.
  assert (Hw : (0 < JS.ofNat (length (splitWords query)) / 5)%Q).
  { apply (ratio_pos _ 5); [exact Hwords | lia]. }
  assert (Hc : ∀ n, (0 <= JS.ofNat n)%Q).
  { intros n. unfold JS.ofNat, Qle. simpl. lia. }
  assert (Hq : (0 <= (if JS.includes query "?" then 1 else 0))%Q)
    by (destruct (JS.includes query "?"); done).
  pose proof (Hc (length (JS.splitEach isClauseSeparator query) - 1)) as Hc'.
  lra.
Qed.

(** X6: whatever the record and the metrics gathered before, the scores
    that [trackQuery] returns, when it returns, for Distinct-1, Distinct-2, repetition, context
    utilization, answer grounding, retrieval precision, hallucination,
    completeness and source diversity lie between 0 and 1, and the query
    complexity is positive and at most 10.  (The citation coverage is only
    known to be at least 0.) *)
Theorem trackQuery_scores_in_range (metrics : Metrics.t)
  (data : QueryRecord.t) (result : QueryMetrics.t) :
  (trackQuery metrics data).2 = JS.Returns result →
  let unit (x : Q) := (0 <= x)%Q ∧ (x <= 1)%Q in
  unit (Diversity.distinct1 (QueryMetrics.diversity result))
  ∧ unit (Diversity.distinct2 (QueryMetrics.diversity result))
  ∧ unit (QueryMetrics.repetition result)
  ∧ unit (QueryMetrics.contextUtilization result)
  ∧ unit (QueryMetrics.answerGrounding result)
  ∧ unit (QueryMetrics.retrievalPrecision result)
  ∧ unit (QueryMetrics.hallucinationScore result)
  ∧ unit (QueryMetrics.completeness result)
  ∧ unit (QueryMetrics.sourceDiversity result)
  ∧ (0 <= QueryMetrics.citationCoverage result)%Q
  ∧ (0 < Complexity.complexity (QueryMetrics.queryComplexity result))%Q
  ∧ (Complexity.complexity (QueryMetrics.queryComplexity result) <= 10)%Q.
Proof.
  unfold trackQuery. cbv zeta.
  destruct (calculateCitationCoverage _ _) as [coverage|] eqn:Hcov;
    [|discriminate].
  cbn [snd]. intros Hres. injection Hres as <-.
  cbn [QueryMetrics.diversity QueryMetrics.repetition
    QueryMetrics.contextUtilization QueryMetrics.answerGrounding
    QueryMetrics.retrievalPrecision QueryMetrics.hallucinationScore
    QueryMetrics.completeness QueryMetrics.sourceDiversity
    QueryMetrics.citationCoverage QueryMetrics.queryComplexity].
  destruct (calculateDiversity_bounds (QueryRecord.response data))
    as (_ & H1 & H2 & H3 & H4).
  split; [split; [apply Qlt_le_weak, H1 | exact H2]|].
  split; [split; [exact H3 | exact H4]|].
  split; [apply calculateRepetition_unit|].
  split; [apply calculateContextUtilization_unit|].
  split; [apply calculateGrounding_unit|].
  split; [apply calculateRetrievalPrecision_unit|].
  split; [apply detectHallucination_unit|].
  split; [apply calculateCompleteness_unit|].
  split; [apply calculateSourceDiversity_unit|].
  split; [|apply calculateQueryComplexity_bounds].
  unfold calculateCitationCoverage in Hcov.
  destruct (noContext _); [injection Hcov as <-; done|].
  destruct (QueryRecord.sources data); [|discriminate].
  injection Hcov as <-. apply ratio_nonneg.
Qed.

Lemma trackQuery_scores_in_range_witness :
  ∃ result : QueryMetrics.t,
    (trackQuery constructor (hd Sample.absentSources Sample.records)).2
    = JS.Returns result
    ∧ (0 <= QueryMetrics.hallucinationScore result)%Q
    ∧ (QueryMetrics.hallucinationScore result <= 1)%Q.
Proof.
  eexists. split; [reflexivity|].
  pose proof (trackQuery_scores_in_range constructor
                (hd Sample.absentSources Sample.records) _ eq_refl) as Hrange.
  cbv zeta in Hrange.
  destruct Hrange as (_ & _ & _ & _ & _ & _ & Hscore & _). exact Hscore.
Defined.

(** *** Citation coverage within the context *)

Lemma noContext_nil_iff (chunks : list Chunk.t) :
  noContext (Some chunks) = true ↔ chunks = [].
Proof.
  destruct chunks; simpl; split; intros H; done.
Qed.

(** X7: when every cited source is the source of some context chunk, the
    citation coverage is at most 1; when moreover every chunk's source is
    cited, it is 1. *)
Theorem calculateCitationCoverage_within_context (sources : list Citation.t)
  (c : Chunk.t) (cs : list Chunk.t) :
  (∀ s, s ∈ sources → Citation.source s ∈ map Chunk.source (c :: cs)) →
  ∃ coverage : Q,
    calculateCitationCoverage (Some sources) (Some (c :: cs))
    = JS.Returns coverage
    ∧ (coverage <= 1)%Q
    ∧ ((∀ chunk, chunk ∈ c :: cs →
          Chunk.source chunk ∈ map Citation.source sources) →
       (coverage == 1)%Q).
Proof.
  intros Hsub. unfold calculateCitationCoverage.
  rewrite noContext_cons. cbn [default from_option id].
  set (cited := list_to_set (map Citation.source sources) : gset string).
  set (available := list_to_set (map Chunk.source (c :: cs)) : gset string).
  exists (JS.ratio (size cited) (size available)).
  split; [reflexivity|].
  assert (Hincl : cited ⊆ available).
  { intros x Hx. apply elem_of_list_to_set in Hx.
    apply list_elem_of_fmap in Hx as (s & -> & Hs).
    apply elem_of_list_to_set, Hsub, Hs. }
  assert (Hpos : 0 < size available).
  { unfold available. rewrite size_list_to_set_distinct.
    apply distinctCount_cons_pos. }
  split.
  - apply ratio_le_1, subseteq_size, Hincl.
  - intros Hsup. apply ratio_eq_1; [exact Hpos|].
    f_equal. apply set_eq. intros x. split; [apply Hincl|].
    intros Hx. apply elem_of_list_to_set in Hx.
    apply list_elem_of_fmap in Hx as (chunk & -> & Hchunk).
    apply elem_of_list_to_set, Hsup, Hchunk.
Qed.

Lemma calculateCitationCoverage_within_context_witness :
  (∀ s, s ∈ [Citation.mk "sea.pdf" 1; Citation.mk "sea.pdf" (1 # 2)] →
     Citation.source s
     ∈ map Chunk.source [Sample.skyChunk; Sample.seaChunk])
  ∧ ∃ coverage : Q,
      calculateCitationCoverage
        (Some [Citation.mk "sea.pdf" 1; Citation.mk "sea.pdf" (1 # 2)])
        (Some [Sample.skyChunk; Sample.seaChunk])
      = JS.Returns coverage
      ∧ (coverage <= 1)%Q.
Proof.
  assert (Hsub :
    ∀ s, s ∈ [Citation.mk "sea.pdf" 1; Citation.mk "sea.pdf" (1 # 2)] →
      Citation.source s ∈ map Chunk.source [Sample.skyChunk; Sample.seaChunk]).
  { intros s Hs. rewrite !elem_of_cons, elem_of_nil in Hs.
    destruct Hs as [->|[->|[]]]; simpl; right; left. }
  split; [exact Hsub|].
  destruct (calculateCitationCoverage_within_context _ _ _ Hsub)
    as (coverage & Heq & Hle & _).
  exists coverage. split; [exact Heq | exact Hle].
Defined.

(** X8: the citation coverage depends on the cited sources and on the
    chunks' sources only as sets: order and repetition do not matter. *)
Theorem calculateCitationCoverage_sets
  (sources1 sources2 : list Citation.t) (chunks1 chunks2 : list Chunk.t) :
  (∀ x, x ∈ map Citation.source sources1 ↔ x ∈ map Citation.source sources2) →
  (∀ x, x ∈ map Chunk.source chunks1 ↔ x ∈ map Chunk.source chunks2) →
  calculateCitationCoverage (Some sources1) (Some chunks1)
  = calculateCitationCoverage (Some sources2) (Some chunks2).
Proof.
  intros Hsources Hchunks. unfold calculateCitationCoverage.
  assert (Hnone : noContext (Some chunks1) = noContext (Some chunks2)).
  { destruct chunks1 as [|c1 cs1], chunks2 as [|c2 cs2]; try reflexivity.
    - exfalso. apply (not_elem_of_nil (Chunk.source c2)).
      apply (Hchunks (Chunk.source c2)). left.
    - exfalso. apply (not_elem_of_nil (Chunk.source c1)).
      apply (Hchunks (Chunk.source c1)). left. }
  rewrite Hnone. destruct (noContext (Some chunks2)); [reflexivity|].
  cbn [default from_option id].
  assert (Hcited : list_to_set (C := gset string) (map Citation.source sources1)
                   = list_to_set (map Citation.source sources2)).
  { apply set_eq. intros x. rewrite !elem_of_list_to_set. apply Hsources. }
  assert (Havailable :
    list_to_set (C := gset string) (map Chunk.source chunks1)
    = list_to_set (map Chunk.source chunks2)).
  { apply set_eq. intros x. rewrite !elem_of_list_to_set. apply Hchunks. }
  rewrite Hcited, Havailable. reflexivity.
Qed.

Lemma calculateCitationCoverage_sets_witness :
  (∀ x, x ∈ map Citation.source Sample.citations
        ↔ x ∈ map Citation.source (Sample.citations ++ rev Sample.citations))
  ∧ (∀ x, x ∈ map Chunk.source [Sample.skyChunk; Sample.seaChunk]
          ↔ x ∈ map Chunk.source
                  [Sample.seaChunk; Sample.skyChunk; Sample.seaChunk])
  ∧ calculateCitationCoverage (Some Sample.citations)
      (Some [Sample.skyChunk; Sample.seaChunk])
    = calculateCitationCoverage
        (Some (Sample.citations ++ rev Sample.citations))
        (Some [Sample.seaChunk; Sample.skyChunk; Sample.seaChunk]).
Proof.
  assert (Hsources :
    ∀ x, x ∈ map Citation.source Sample.citations
         ↔ x ∈ map Citation.source (Sample.citations ++ rev Sample.citations)).
  { intros x. vm_compute map. rewrite !elem_of_cons, !elem_of_nil. tauto. }
  assert (Hchunks :
    ∀ x, x ∈ map Chunk.source [Sample.skyChunk; Sample.seaChunk]
         ↔ x ∈ map Chunk.source
                 [Sample.seaChunk; Sample.skyChunk; Sample.seaChunk]).
  { intros x. vm_compute map. rewrite !elem_of_cons, !elem_of_nil. tauto. }
  split; [exact Hsources|]. split; [exact Hchunks|].
  apply (calculateCitationCoverage_sets _ _ _ _ Hsources Hchunks).
Defined.

(** *** Completeness *)

(** X9: a response that contains the query (both lower-cased) addresses
    every word of it: its completeness is 1. *)
Theorem calculateCompleteness_echo (query response : string) :
  Spec.occursIn (JS.toLowerCase query) (JS.toLowerCase response) →
  (calculateCompleteness query response == 1)%Q.
Proof.
  intros Hecho. unfold calculateCompleteness.
  set (queryWords := List.filter _ (splitWords (JS.toLowerCase query))).
  destruct (Nat.eqb_spec (length queryWords) 0) as [|Hne]; [reflexivity|].
  assert (Hall : List.filter
                   (λ word, JS.includes (JS.toLowerCase response) word)
                   queryWords = queryWords).
  { rewrite <- (filter_true queryWords) at 2.
    apply filter_ext_in. intros w Hw.
    apply filter_In in Hw as [Hw _].
    apply includes_occursIn. apply occursIn_trans with (JS.toLowerCase query);
      [|exact Hecho].
    apply (splitRuns_occursIn JS.isWhiteSpace), list_elem_of_In, Hw. }
  rewrite Hall. apply ratio_eq_1; [lia | reflexivity].
Qed.

Lemma calculateCompleteness_echo_witness :
  Spec.occursIn (JS.toLowerCase "Compare sea and sky")
    (JS.toLowerCase "To compare sea and sky, look up.")
  ∧ (calculateCompleteness "Compare sea and sky"
       "To compare sea and sky, look up." == 1)%Q.
Proof.
  assert (Hecho : Spec.occursIn (JS.toLowerCase "Compare sea and sky")
                    (JS.toLowerCase "To compare sea and sky, look up.")).
  { exists "to "%string, ", look up."%string. reflexivity. }
  split; [exact Hecho|].
  apply (calculateCompleteness_echo _ _ Hecho).
Defined.

(** *** Query complexity *)


(** *** Vocabulary of the query types *)

(** X11: a query is given one of the four types only if a word of that
    type's vocabulary occurs in the lower-cased query. *)
Theorem classifyQuery_vocabulary (query : string) (words : list string)
  (queryType : QueryType) :
  (words, queryType) ∈ Spec.rules →
  classifyQuery query = queryType →
  ∃ w : string, w ∈ words ∧ Spec.occursIn w (JS.toLowerCase query).
Proof.
  intros Hrule Hclass. unfold Spec.rules in Hrule.
  rewrite !elem_of_cons, elem_of_nil in Hrule.
  unfold classifyQuery in Hclass.
  destruct (JS.testWords questionWords _) eqn:Hq;
    [|destruct (JS.testWords summaryWords _) eqn:Hs;
      [|destruct (JS.testWords comparisonWords _) eqn:Hc;
        [|destruct (JS.testWords generationWords _) eqn:Hg]]];
    subst queryType;
    destruct Hrule as [Hr|[Hr|[Hr|[Hr|[]]]]];
    try discriminate Hr; injection Hr as ->;
    eapply testWordsFrom_occursIn; eassumption.
Qed.

Lemma classifyQuery_vocabulary_witness :
  (comparisonWords, comparison) ∈ Spec.rules
  ∧ classifyQuery "Compare sea and sky" = comparison
  ∧ ∃ w : string,
      w ∈ comparisonWords
      ∧ Spec.occursIn w (JS.toLowerCase "Compare sea and sky").
Proof.
  assert (Hrule : (comparisonWords, comparison) ∈ Spec.rules).
  { unfold Spec.rules. rewrite !elem_of_cons. right. right. left.
    reflexivity. }
  assert (Hclass : classifyQuery "Compare sea and sky" = comparison).
  { vm_compute. reflexivity. }
  split; [exact Hrule|]. split; [exact Hclass|].
  apply (classifyQuery_vocabulary _ _ _ Hrule Hclass).
Defined.

(** *** The metrics as a history of the calls *)

Lemma countType_cons (queryType : QueryType) (r : QueryMetrics.t)
  (rs : list QueryMetrics.t) :
  Spec.countType queryType (r :: rs)
  = (if decide (QueryMetrics.queryType r = queryType) then 1 else 0)
    + Spec.countType queryType rs.
Proof.
  unfold Spec.countType. cbn [List.filter].
  destruct (decide (QueryMetrics.queryType r = queryType)).
  - rewrite bool_decide_eq_true_2 by assumption. reflexivity.
  - rewrite bool_decide_eq_false_2 by assumption. reflexivity.
Qed.

(** A call that returns [r] extends the metrics by the history of that one
    call. *)
Lemma trackQuery_returns (metrics : Metrics.t) (d : QueryRecord.t)
  (r : QueryMetrics.t) :
  (trackQuery metrics d).2 = JS.Returns r →
  (trackQuery metrics d).1 = Spec.extend metrics (Spec.history [d] [r]).
Proof.
  unfold trackQuery. cbv zeta.
  destruct (calculateCitationCoverage _ _) as [coverage|];
    cbn [fst snd]; [|discriminate].
  intros [= <-]. unfold Spec.extend, Spec.history.
  cbn [map Metrics.responseLengths Metrics.vocabularyUnique
    Metrics.repetitionScores Metrics.diversityDistinct1
    Metrics.diversityDistinct2 Metrics.contextUtilization
    Metrics.answerGrounding Metrics.citationCoverage
    Metrics.retrievalPrecision Metrics.totalGenTime Metrics.throughput
    Metrics.memoryUsage Metrics.queryComplexity Metrics.sessionDurations
    Metrics.followUpRates Metrics.queryTypes Metrics.hallucinationScores
    Metrics.completenessScores Metrics.sourceDiversity
    QueryMetrics.responseLength QueryMetrics.diversity
    QueryMetrics.repetition QueryMetrics.contextUtilization
    QueryMetrics.answerGrounding QueryMetrics.citationCoverage
    QueryMetrics.retrievalPrecision QueryMetrics.throughput
    QueryMetrics.queryComplexity QueryMetrics.queryType
    QueryMetrics.hallucinationScore QueryMetrics.completeness
    QueryMetrics.sourceDiversity
    QueryTypes.question QueryTypes.summary QueryTypes.comparison
    QueryTypes.generation QueryTypes.other].
  f_equal. rewrite !countType_cons.
  cbn [QueryMetrics.queryType].
  destruct (classifyQuery (QueryRecord.query d)); unfold increment;
    f_equal; case_decide; (discriminate || congruence || cbn; lia).
Qed.

Lemma extend_history_cons (metrics : Metrics.t) (d : QueryRecord.t)
  (ds : list QueryRecord.t) (r : QueryMetrics.t) (rs : list QueryMetrics.t) :
  Spec.extend (Spec.extend metrics (Spec.history [d] [r])) (Spec.history ds rs)
  = Spec.extend metrics (Spec.history (d :: ds) (r :: rs)).
Proof.
  unfold Spec.extend, Spec.history.
  cbn [map Metrics.responseLengths Metrics.vocabularyUnique
    Metrics.repetitionScores Metrics.diversityDistinct1
    Metrics.diversityDistinct2 Metrics.contextUtilization
    Metrics.answerGrounding Metrics.citationCoverage
    Metrics.retrievalPrecision Metrics.totalGenTime Metrics.throughput
    Metrics.memoryUsage Metrics.queryComplexity Metrics.sessionDurations
    Metrics.followUpRates Metrics.queryTypes Metrics.hallucinationScores
    Metrics.completenessScores Metrics.sourceDiversity
    QueryTypes.question QueryTypes.summary QueryTypes.comparison
    QueryTypes.generation QueryTypes.other].
  rewrite <- !app_assoc. cbn [app].
  f_equal. rewrite !(countType_cons _ r rs), !(countType_cons _ r []).
  unfold Spec.countType. cbn [List.filter length].
  f_equal; lia.
Qed.

Lemma trackAll_extend (ds : list QueryRecord.t) (rs : list QueryMetrics.t)
  (metrics : Metrics.t) :
  Spec.outcomes metrics ds = map JS.Returns rs →
  Spec.trackAll metrics ds = Spec.extend metrics (Spec.history ds rs).
Proof.
  revert rs metrics. induction ds as [|d ds IH]; intros rs metrics Hrs.
  - destruct rs as [|r rs]; [|discriminate].
    destruct metrics as [? ? ? ? ? ? ? ? ? ? ? ? ? ? ? [? ? ? ? ?] ? ? ?].
    unfold Spec.extend, Spec.history, Spec.countType. cbn.
    rewrite !app_nil_r, !Nat.add_0_r. reflexivity.
  - destruct rs as [|r rs]; [discriminate|].
    cbn [Spec.outcomes map] in Hrs. injection Hrs as Hr Hrs.
    change (Spec.trackAll metrics (d :: ds))
      with (Spec.trackAll (trackQuery metrics d).1 ds).
    rewrite (IH rs _ Hrs), (trackQuery_returns metrics d r Hr).
    apply extend_history_cons.
Qed.

Lemma extend_constructor (h : Metrics.t) :
  Metrics.vocabularyUnique h = ∅ → Metrics.memoryUsage h = [] →
  Metrics.sessionDurations h = [] → Metrics.followUpRates h = [] →
  Spec.extend constructor h = h.
Proof.
  destruct h as [? ? ? ? ? ? ? ? ? ? ? ? ? ? ? [? ? ? ? ?] ? ? ?].
  cbn. intros -> -> -> ->. reflexivity.
Qed.

(** X12: when the calls of [trackQuery] on the records [ds] all return, with
    the results [rs], they extend every per-query sequence of the metrics
    with what was returned for each record, in the order of the calls, add to
    each [queryTypes] counter the number of results of that type, and leave
    [vocabularyUnique], [memoryUsage], [sessionDurations] and [followUpRates]
    as they were.  On a fresh instance the metrics are then exactly that
    history, the four fields empty. *)
Theorem trackAll_history (ds : list QueryRecord.t)
  (rs : list QueryMetrics.t) :
  (∀ metrics : Metrics.t,
     Spec.outcomes metrics ds = map JS.Returns rs →
     Spec.trackAll metrics ds = Spec.extend metrics (Spec.history ds rs))
  ∧ (Spec.outcomes constructor ds = map JS.Returns rs →
     Spec.trackAll constructor ds = Spec.history ds rs).
Proof.
  split; [intros metrics; apply trackAll_extend|].
  intros Hrs. rewrite (trackAll_extend ds rs constructor Hrs).
  apply extend_constructor; reflexivity.
Qed.

Lemma trackAll_history_witness :
  Spec.outcomes constructor Sample.records = map JS.Returns Sample.results
  ∧ Spec.trackAll constructor Sample.records
    = Spec.history Sample.records Sample.results.
Proof.
  assert (Hrs : Spec.outcomes constructor Sample.records
                = map JS.Returns Sample.results) by reflexivity.
  split; [exact Hrs|].
  apply (proj2 (trackAll_history Sample.records Sample.results) Hrs).
Defined.

(** *** Numbers of code units *)

Lemma ofNat_nonneg (n : nat) : (0 <= JS.ofNat n)%Q.
Proof. unfold JS.ofNat, Qle. simpl. lia. Qed.

(** *** Least and greatest response length *)

Lemma Qmin_0_nonneg (x : Q) : (0 <= x)%Q → Qmin 0 x = 0%Q.
Proof.
  intros Hx. unfold Qmin, GenericMinMax.gmin.
  pose proof (proj1 (Qle_alt 0 x) Hx) as Hn.
  destruct (0 ?= x)%Q eqn:Hc; [reflexivity | reflexivity | congruence].
Qed.

Lemma fold_left_Qmin_0 (arr : list Q) :
  Forall (λ x, (0 <= x)%Q) arr → fold_left Qmin arr 0%Q = 0%Q.
Proof.
  induction 1 as [|x arr Hx _ IH]; [reflexivity|].
  cbn [fold_left]. rewrite Qmin_0_nonneg by exact Hx. exact IH.
Qed.

Lemma fold_left_Qmax_ge (arr : list Q) (acc : Q) :
  (acc <= fold_left Qmax arr acc)%Q
  ∧ Forall (λ x, (x <= fold_left Qmax arr acc)%Q) arr.
Proof.
  revert acc. induction arr as [|x arr IH]; intros acc; cbn [fold_left].
  - split; [apply Qle_refl | constructor].
  - destruct (IH (Qmax acc x)) as [Hacc Hall]. split.
    + eapply Qle_trans; [apply Q.le_max_l | exact Hacc].
    + constructor; [|exact Hall].
      eapply Qle_trans; [apply Q.le_max_r | exact Hacc].
Qed.

(** The response length is pushed first, before anything can throw. *)
Lemma trackAll_responseLengths (ds : list QueryRecord.t)
  (metrics : Metrics.t) :
  Metrics.responseLengths (Spec.trackAll metrics ds)
  = Metrics.responseLengths metrics
    ++ map (λ d, JS.ofNat (String.length (QueryRecord.response d))) ds.
Proof.
  revert metrics. induction ds as [|d ds IH]; intros metrics.
  - cbn [Spec.trackAll fold_left map]. rewrite app_nil_r. reflexivity.
  - change (Spec.trackAll metrics (d :: ds))
      with (Spec.trackAll (trackQuery metrics d).1 ds).
    rewrite IH. cbn [map].
    assert (Hpush : Metrics.responseLengths (trackQuery metrics d).1
                    = Metrics.responseLengths metrics
                      ++ [JS.ofNat (String.length (QueryRecord.response d))]).
    { unfold trackQuery. cbv zeta.
      destruct (calculateCitationCoverage _ _); reflexivity. }
    rewrite Hpush, <- app_assoc. reflexivity.
Qed.

(** X15: [Math.min(...responseLengths, 0)] includes the 0 among the values
    it compares: after any sequence of calls on a fresh instance
    [minResponseLength] is 0, however long the responses were, while
    [maxResponseLength] is at least the length of every tracked response. *)
Theorem minResponseLength_zero (ds : list QueryRecord.t) :
  let stats := getAggregatedStats (Spec.trackAll constructor ds) in
  Stats.minResponseLength (Stats.generation stats) = 0%Q
  ∧ Forall
      (λ d, (JS.ofNat (String.length (QueryRecord.response d))
             <= Stats.maxResponseLength (Stats.generation stats))%Q)
      ds.
Proof.
  cbv zeta.
  cbn [getAggregatedStats Stats.generation Stats.minResponseLength
    Stats.maxResponseLength].
  rewrite trackAll_responseLengths.
  cbn [constructor Metrics.responseLengths app].
  split.
  - apply fold_left_Qmin_0. apply Forall_forall. intros x Hx.
    apply list_elem_of_fmap in Hx as (d & -> & _). apply ofNat_nonneg.
  - set (lengths := map _ ds).
    destruct (fold_left_Qmax_ge lengths 0) as [_ Hall].
    rewrite Forall_forall in Hall. apply Forall_forall. intros d Hd.
    apply Hall. unfold lengths.
    apply list_elem_of_fmap. exists d. split; [reflexivity | exact Hd].
Qed.

(** *** Median and percentile *)

#[global] Instance Qle_transitive : Transitive Qle.
Proof. intros x y z. apply Qle_trans. Qed.

Lemma sortAscending_StronglySorted (arr : list Q) :
  StronglySorted Qle (JS.sortAscending arr).
Proof. apply (StronglySorted_merge_sort Qle). Qed.

Lemma StronglySorted_lookup_le (l : list Q) (i j : nat) (a b : Q) :
  StronglySorted Qle l → i ≤ j →
  l !! i = Some a → l !! j = Some b → (a <= b)%Q.
Proof.
  intros Hsorted. revert i j.
  induction Hsorted as [|x l _ IH Hall]; intros i j Hij Ha Hb;
    [discriminate|].
  destruct i as [|i], j as [|j]; simpl in Ha, Hb.
  - injection Ha as <-. injection Hb as <-. apply Qle_refl.
  - injection Ha as <-. rewrite Forall_forall in Hall.
    apply Hall. eapply list_elem_of_lookup_2, Hb.
  - lia.
  - apply (IH i j); [lia | assumption | assumption].
Qed.

Lemma sortAscending_elem_of (arr : list Q) (i : nat) (x : Q) :
  JS.sortAscending arr !! i = Some x → x ∈ arr.
Proof.
  intros Hx. rewrite <- (sortAscending_Permutation arr).
  eapply list_elem_of_lookup_2, Hx.
Qed.

(** The two shapes of the median of a non-empty array. *)
Lemma median_nonempty (arr : list Q) :
  arr ≠ [] →
  let sorted := JS.sortAscending arr in
  let mid := length arr / 2 in
  (length arr mod 2 = 0
   ∧ 1 ≤ mid
   ∧ ∃ a b : Q,
       sorted !! (mid - 1) = Some a ∧ sorted !! mid = Some b
       ∧ median arr = Some ((a + b) / 2)%Q)
  ∨ (length arr mod 2 ≠ 0
     ∧ ∃ a : Q, sorted !! mid = Some a ∧ median arr = Some a).
Proof.
  intros Hne sorted mid. unfold median.
  destruct (Nat.eqb_spec (length arr) 0) as [Hz|Hnz].
  { destruct arr; [done | discriminate]. }
  cbv zeta. rewrite sortAscending_length. fold sorted.
  assert (Hmid : (Z.of_nat (length arr) / 2)%Z = Z.of_nat mid).
  { unfold mid. rewrite Nat2Z.inj_div. reflexivity. }
  rewrite Hmid.
  assert (Hlt : mid < length sorted).
  { unfold sorted, mid. rewrite sortAscending_length.
    apply Nat.div_lt; lia. }
  destruct (lookup_lt_is_Some_2 sorted mid Hlt) as [b Hb].
  destruct (Nat.eqb_spec (length arr mod 2) 0) as [Heven|Hodd].
  - left. split; [exact Heven|].
    assert (Hone : 1 ≤ mid).
    { unfold mid. apply Nat.div_le_lower_bound; [lia|].
      destruct (length arr) as [|[|n]]; [lia | discriminate | lia]. }
    split; [exact Hone|].
    destruct (lookup_lt_is_Some_2 sorted (mid - 1)) as [a Ha]; [lia|].
    exists a, b. split; [exact Ha|]. split; [exact Hb|].
    replace (Z.of_nat mid - 1)%Z with (Z.of_nat (mid - 1)) by lia.
    rewrite !index_lookup, Ha, Hb. reflexivity.
  - right. split; [exact Hodd|]. exists b. split; [exact Hb|].
    rewrite index_lookup. exact Hb.
Qed.

(** X16: when the number of tracked generation times is odd, the median of
    the generation times is one of them, the middle element of the sorted
    copy, on which no arithmetic is done; the 95th percentile is one of them
    too, and the median is at most the 95th percentile. *)
Theorem median_le_p95TotalGenTime (metrics : Metrics.t) :
  let times := Metrics.totalGenTime metrics in
  let performance := Stats.performance (getAggregatedStats metrics) in
  length times mod 2 = 1 →
  ∃ m p : Q,
    Stats.medianTotalGenTime performance = Some m
    ∧ Stats.p95TotalGenTime performance = Some p
    ∧ m ∈ times ∧ p ∈ times ∧ (m <= p)%Q.
Proof.
  cbn [getAggregatedStats Stats.performance Stats.medianTotalGenTime
    Stats.p95TotalGenTime].
  set (times := Metrics.totalGenTime metrics). cbv zeta. intros Hodd.
  assert (Hne : times ≠ []) by (intros Heq; rewrite Heq in Hodd; discriminate).
  assert (Hn : 0 < length times) by (destruct times; [done | simpl; lia]).
  pose proof (sortAscending_StronglySorted times) as Hsorted.
  rewrite percentile_95 by exact Hne.
  destruct (lookup_lt_is_Some_2 (JS.sortAscending times)
              (Spec.nearestRank 95 (length times))) as [p Hp].
  { rewrite sortAscending_length. apply nearestRank_95_lt, Hn. }
  assert (Hrank : length times / 2 ≤ Spec.nearestRank 95 (length times)).
  { rewrite nearestRank_95 by exact Hn.
    apply Nat.div_le_lower_bound; [lia|].
    pose proof (Nat.Div0.mul_div_le (length times) 2). lia. }
  destruct (median_nonempty times Hne)
    as [(Heven & _)|(_ & a & Ha & ->)]; [lia|].
  exists a, p. split; [reflexivity|]. split; [exact Hp|].
  split; [exact (sortAscending_elem_of _ _ _ Ha)|].
  split; [exact (sortAscending_elem_of _ _ _ Hp)|].
  exact (StronglySorted_lookup_le _ _ _ a p Hsorted Hrank Ha Hp).
Qed.

Lemma median_le_p95TotalGenTime_witness :
  length (Metrics.totalGenTime Sample.metrics) mod 2 = 1
  ∧ ∃ m p : Q,
      Stats.medianTotalGenTime
        (Stats.performance (getAggregatedStats Sample.metrics)) = Some m
      ∧ Stats.p95TotalGenTime
          (Stats.performance (getAggregatedStats Sample.metrics)) = Some p
      ∧ (m <= p)%Q.
Proof.
  assert (Hodd : length (Metrics.totalGenTime Sample.metrics) mod 2 = 1)
    by reflexivity.
  split; [exact Hodd|].
  destruct (median_le_p95TotalGenTime Sample.metrics Hodd)
    as (m & p & Hm & Hp & _ & _ & Hle).
  exists m, p. split; [exact Hm|]. split; [exact Hp | exact Hle].
Defined.

(** *** The percentiles 0 and 100 *)

(** The percentile as a read of the sorted array at a natural index. *)
Lemma percentile_lookup (arr : list Q) (p : Q) :
  arr ≠ [] →
  percentile arr p
  = JS.sortAscending arr !! Spec.nearestRank p (length arr).
Proof.
  intros Hne. unfold percentile, Spec.nearestRank.
  destruct arr as [|a arr]; [done|].
  change (length (a :: arr) =? 0) with false. cbv iota zeta.
  rewrite sortAscending_length.
  rewrite <- index_lookup, Z2Nat.id by lia. reflexivity.
Qed.

Lemma sortAscending_lookup_of_elem (arr : list Q) (y : Q) :
  y ∈ arr → ∃ j : nat, JS.sortAscending arr !! j = Some y.
Proof.
  intros Hy. rewrite <- (sortAscending_Permutation arr) in Hy.
  apply list_elem_of_lookup_1 in Hy. exact Hy.
Qed.

(** For [p = 0] the product [(p / 100) * n] is 0 and the index [-1] is
    clamped to 0; for [p = 100] the product is [n] and the index [n - 1]. *)
Lemma nearestRank_0 (n : nat) : Spec.nearestRank 0 n = 0.
Proof.
  unfold Spec.nearestRank.
  assert (Heq : (0 / 100 * JS.ofNat n == inject_Z 0)%Q)
    by (unfold Qeq; simpl; lia).
  rewrite (Qceiling_comp _ _ Heq), Qceiling_Z. reflexivity.
Qed.

Lemma nearestRank_100 (n : nat) : Spec.nearestRank 100 n = n - 1.
Proof.
  unfold Spec.nearestRank.
  assert (Heq : (100 / 100 * JS.ofNat n == inject_Z (Z.of_nat n))%Q)
    by (unfold JS.ofNat; field).
  rewrite (Qceiling_comp _ _ Heq), Qceiling_Z. lia.
Qed.

(** X18: over a non-empty array, [percentile(arr, 0)] is a least element of
    the array and [percentile(arr, 100)] a greatest one; both are defined.
    For these two values of [p] the index is computed without rounding. *)
Theorem percentile_extremes (arr : list Q) :
  arr ≠ [] →
  (∃ x : Q,
     percentile arr 0 = Some x ∧ x ∈ arr ∧ Forall (λ y, (x <= y)%Q) arr)
  ∧ (∃ x : Q,
       percentile arr 100 = Some x ∧ x ∈ arr ∧ Forall (λ y, (y <= x)%Q) arr).
Proof.
  intros Hne.
  assert (Hn : 0 < length arr) by (destruct arr; [done | simpl; lia]).
  pose proof (sortAscending_StronglySorted arr) as Hsorted.
  pose proof (sortAscending_length arr) as Hlen.
  rewrite !percentile_lookup by exact Hne.
  rewrite nearestRank_0, nearestRank_100.
  split.
  - destruct (lookup_lt_is_Some_2 (JS.sortAscending arr) 0) as [x Hx]; [lia|].
    exists x. split; [exact Hx|].
    split; [exact (sortAscending_elem_of _ _ _ Hx)|].
    apply Forall_forall. intros y Hy.
    destruct (sortAscending_lookup_of_elem arr y Hy) as [j Hj].
    apply (StronglySorted_lookup_le _ 0 j x y Hsorted);
      [lia | exact Hx | exact Hj].
  - destruct (lookup_lt_is_Some_2 (JS.sortAscending arr) (length arr - 1))
      as [x Hx]; [lia|].
    exists x. split; [exact Hx|].
    split; [exact (sortAscending_elem_of _ _ _ Hx)|].
    apply Forall_forall. intros y Hy.
    destruct (sortAscending_lookup_of_elem arr y Hy) as [j Hj].
    apply (StronglySorted_lookup_le _ j (length arr - 1) y x Hsorted);
      [|exact Hj | exact Hx].
    apply lookup_lt_Some in Hj. lia.
Qed.

Lemma percentile_extremes_witness :
  Sample.times ≠ []
  ∧ (∃ x : Q,
       percentile Sample.times 0 = Some x ∧ x ∈ Sample.times
       ∧ Forall (λ y, (x <= y)%Q) Sample.times)
  ∧ percentile Sample.times 0 = Some 800%Q
  ∧ percentile Sample.times 100 = Some 2000%Q.
Proof.
  assert (Hne : Sample.times ≠ []) by discriminate.
  split; [exact Hne|].
  split; [apply (percentile_extremes Sample.times Hne)|].
  split; vm_compute; reflexivity.
Defined.

(** *** Letter case *)

Lemma isWhiteSpace_caseBlind : Spec.caseBlind JS.isWhiteSpace.
Proof. intros [[] [] [] [] [] [] [] []]; reflexivity. Qed.

Lemma isTerminator_caseBlind : Spec.caseBlind isTerminator.
Proof. intros [[] [] [] [] [] [] [] []]; reflexivity. Qed.

Lemma isClauseSeparator_caseBlind : Spec.caseBlind isClauseSeparator.
Proof. intros [[] [] [] [] [] [] [] []]; reflexivity. Qed.

Lemma isQuestionMark_caseBlind :
  Spec.caseBlind (λ c, bool_decide (c = "?"%char)).
Proof. intros [[] [] [] [] [] [] [] []]; reflexivity. Qed.

Lemma length_toLowerCase (s : string) :
  String.length (JS.toLowerCase s) = String.length s.
Proof. induction s as [|c s IH]; simpl; [reflexivity | rewrite IH; reflexivity]. Qed.

Lemma splitRunsFrom_toLowerCase (sep : ascii → bool) (s : string)
  (inRun : bool) :
  Spec.caseBlind sep →
  JS.splitRunsFrom sep inRun (JS.toLowerCase s)
  = map JS.toLowerCase (JS.splitRunsFrom sep inRun s).
Proof.
  intros Hsep. revert inRun.
  induction s as [|c s IH]; intros inRun; [reflexivity|].
  cbn [JS.toLowerCase JS.splitRunsFrom]. rewrite Hsep.
  destruct (sep c).
  - destruct inRun; rewrite IH; reflexivity.
  - rewrite IH. destruct (JS.splitRunsFrom sep false s); reflexivity.
Qed.

Lemma countChars_toLowerCase (P : ascii → bool) (s : string) :
  Spec.caseBlind P →
  Spec.countChars P (JS.toLowerCase s) = Spec.countChars P s.
Proof.
  intros HP. induction s as [|c s IH]; [reflexivity|].
  cbn [JS.toLowerCase Spec.countChars]. rewrite HP, IH. reflexivity.
Qed.

Lemma trimStart_toLowerCase (s : string) :
  JS.trimStart (JS.toLowerCase s) = JS.toLowerCase (JS.trimStart s).
Proof.
  induction s as [|c s IH]; [reflexivity|].
  cbn [JS.toLowerCase JS.trimStart]. rewrite isWhiteSpace_caseBlind.
  destruct (JS.isWhiteSpace c); [exact IH | reflexivity].
Qed.

Lemma trimEnd_toLowerCase (s : string) :
  JS.trimEnd (JS.toLowerCase s) = JS.toLowerCase (JS.trimEnd s).
Proof.
  induction s as [|c s IH]; [reflexivity|].
  cbn [JS.toLowerCase JS.trimEnd]. rewrite IH, isWhiteSpace_caseBlind.
  destruct (JS.trimEnd s); [destruct (JS.isWhiteSpace c)|]; reflexivity.
Qed.

Lemma trim_toLowerCase (s : string) :
  JS.trim (JS.toLowerCase s) = JS.toLowerCase (JS.trim s).
Proof.
  unfold JS.trim. rewrite trimStart_toLowerCase, trimEnd_toLowerCase.
  reflexivity.
Qed.

Lemma length_trim_toLowerCase (s : string) :
  String.length (JS.trim (JS.toLowerCase s)) = String.length (JS.trim s).
Proof. rewrite trim_toLowerCase. apply length_toLowerCase. Qed.

Lemma filter_map_commute {A B : Type} (f : A → B) (P : B → bool)
  (l : list A) :
  List.filter P (map f l) = map f (List.filter (λ x, P (f x)) l).
Proof.
  induction l as [|x l IH]; simpl; [reflexivity|].
  destruct (P (f x)); simpl; rewrite IH; reflexivity.
Qed.

Lemma fold_left_map_step {A B S : Type} (step : S → B → S) (f : A → B)
  (l : list A) (st : S) :
  fold_left step (map f l) st = fold_left (λ st x, step st (f x)) l st.
Proof.
  revert st. induction l as [|x l IH]; intros st; simpl; [reflexivity|].
  apply IH.
Qed.

Lemma splitSentences_toLowerCase (text : string) :
  splitSentences (JS.toLowerCase text)
  = map JS.toLowerCase (splitSentences text).
Proof. apply splitRunsFrom_toLowerCase, isTerminator_caseBlind. Qed.

Lemma splitWords_toLowerCase (text : string) :
  splitWords (JS.toLowerCase text) = map JS.toLowerCase (splitWords text).
Proof. apply splitRunsFrom_toLowerCase, isWhiteSpace_caseBlind. Qed.

Lemma keptSentences_toLowerCase (text : string) :
  keptSentences (JS.toLowerCase text)
  = map JS.toLowerCase (keptSentences text).
Proof.
  unfold keptSentences. rewrite splitSentences_toLowerCase, filter_map_commute.
  f_equal. apply filter_ext. intros s. rewrite length_trim_toLowerCase.
  reflexivity.
Qed.

Lemma longSentences_toLowerCase (response : string) :
  longSentences (JS.toLowerCase response)
  = map JS.toLowerCase (longSentences response).
Proof.
  unfold longSentences. rewrite splitSentences_toLowerCase, filter_map_commute.
  f_equal. apply filter_ext. intros s. rewrite length_trim_toLowerCase.
  reflexivity.
Qed.

Lemma matchRate_toLowerCase (contextText sentence : string) :
  matchRate contextText (JS.toLowerCase sentence)
  = matchRate contextText sentence.
Proof.
  unfold matchRate, contentWords. rewrite toLowerCase_idempotent.
  reflexivity.
Qed.

Lemma contextTextOf_lowerChunk (chunks : list Chunk.t) :
  contextTextOf (map Spec.lowerChunk chunks) = contextTextOf chunks.
Proof.
  unfold contextTextOf. rewrite map_map. f_equal.
  apply map_ext. intros c. apply toLowerCase_idempotent.
Qed.

Lemma calculateDiversity_toLowerCase (text : string) :
  calculateDiversity (JS.toLowerCase text) = calculateDiversity text.
Proof. unfold calculateDiversity. rewrite toLowerCase_idempotent. reflexivity. Qed.

Lemma calculateRepetition_toLowerCase (text : string) :
  calculateRepetition (JS.toLowerCase text) = calculateRepetition text.
Proof.
  unfold calculateRepetition.
  fold (keptSentences (JS.toLowerCase text)). fold (keptSentences text).
  rewrite keptSentences_toLowerCase, length_map, fold_left_map_step.
  assert (Hstep : ∀ l st,
    fold_left (λ st s, repetitionStep st (JS.toLowerCase s)) l st
    = fold_left repetitionStep l st).
  { induction l as [|s l IH]; intros st; [reflexivity|].
    cbn [fold_left]. rewrite IH. f_equal.
    destruct st as [count seen]. unfold repetitionStep.
    rewrite trim_toLowerCase, toLowerCase_idempotent. reflexivity. }
  rewrite Hstep. reflexivity.
Qed.

Lemma calculateCompleteness_toLowerCase (query response : string) :
  calculateCompleteness (JS.toLowerCase query) (JS.toLowerCase response)
  = calculateCompleteness query response.
Proof.
  unfold calculateCompleteness. rewrite !toLowerCase_idempotent. reflexivity.
Qed.

Lemma classifyQuery_toLowerCase (query : string) :
  classifyQuery (JS.toLowerCase query) = classifyQuery query.
Proof. unfold classifyQuery. rewrite toLowerCase_idempotent. reflexivity. Qed.

Lemma calculateQueryComplexity_toLowerCase (query : string) :
  calculateQueryComplexity (JS.toLowerCase query)
  = calculateQueryComplexity query.
Proof.
  unfold calculateQueryComplexity.
  fold (keptSentences (JS.toLowerCase query)). fold (keptSentences query).
  rewrite keptSentences_toLowerCase, splitWords_toLowerCase, !length_map.
  rewrite !splitEach_length, !includes_char.
  rewrite (countChars_toLowerCase _ _ isClauseSeparator_caseBlind).
  rewrite (countChars_toLowerCase _ _ isQuestionMark_caseBlind).
  reflexivity.
Qed.

Lemma noContext_lowered (contextChunks : option (list Chunk.t)) :
  noContext (option_map (map Spec.lowerChunk) contextChunks)
  = noContext contextChunks.
Proof.
  destruct contextChunks as [chunks|]; [|reflexivity].
  simpl. rewrite length_map. reflexivity.
Qed.

Lemma contextTextOf_lowered (contextChunks : option (list Chunk.t)) :
  contextTextOf (default [] (option_map (map Spec.lowerChunk) contextChunks))
  = contextTextOf (default [] contextChunks).
Proof.
  destruct contextChunks as [chunks|]; [|reflexivity].
  apply contextTextOf_lowerChunk.
Qed.

Lemma calculateContextUtilization_lowered (response : string)
  (contextChunks : option (list Chunk.t)) :
  calculateContextUtilization (JS.toLowerCase response)
    (option_map (map Spec.lowerChunk) contextChunks)
  = calculateContextUtilization response contextChunks.
Proof.
  unfold calculateContextUtilization.
  rewrite noContext_lowered, contextTextOf_lowered, toLowerCase_idempotent.
  reflexivity.
Qed.

(** Counting sentences by their match rate does not see their case. *)
Lemma count_matchRate_toLowerCase (test : JS.number → bool)
  (contextText : string) (l : list string) :
  length
    (List.filter (λ s, test (matchRate contextText s)) (map JS.toLowerCase l))
  = length (List.filter (λ s, test (matchRate contextText s)) l).
Proof.
  rewrite filter_map_commute, length_map. f_equal.
  apply filter_ext. intros s. rewrite matchRate_toLowerCase. reflexivity.
Qed.

Lemma calculateGrounding_lowered (response : string)
  (contextChunks : option (list Chunk.t)) :
  calculateGrounding (JS.toLowerCase response)
    (option_map (map Spec.lowerChunk) contextChunks)
  = calculateGrounding response contextChunks.
Proof.
  unfold calculateGrounding.
  rewrite noContext_lowered, contextTextOf_lowered.
  rewrite longSentences_toLowerCase, length_map.
  rewrite !(fold_left_count (λ s, JS.gt (matchRate _ s) (3 # 10))).
  rewrite (count_matchRate_toLowerCase (λ x, JS.gt x (3 # 10))).
  reflexivity.
Qed.

Lemma detectHallucination_lowered (response : string)
  (contextChunks : option (list Chunk.t)) :
  detectHallucination (JS.toLowerCase response)
    (option_map (map Spec.lowerChunk) contextChunks)
  = detectHallucination response contextChunks.
Proof.
  unfold detectHallucination.
  rewrite noContext_lowered, contextTextOf_lowered.
  rewrite longSentences_toLowerCase, length_map.
  rewrite !(fold_left_count (λ s, JS.lt (matchRate _ s) (2 # 10))).
  rewrite (count_matchRate_toLowerCase (λ x, JS.lt x (2 # 10))).
  reflexivity.
Qed.

Lemma calculateCitationCoverage_lowered
  (sources : option (list Citation.t))
  (contextChunks : option (list Chunk.t)) :
  calculateCitationCoverage sources
    (option_map (map Spec.lowerChunk) contextChunks)
  = calculateCitationCoverage sources contextChunks.
Proof.
  unfold calculateCitationCoverage. rewrite noContext_lowered.
  destruct contextChunks as [chunks|]; [|reflexivity].
  cbn [option_map default from_option id]. rewrite map_map. reflexivity.
Qed.

Lemma calculateRetrievalPrecision_lowered
  (contextChunks : option (list Chunk.t)) (topSimilarity avgSimilarity : Q) :
  calculateRetrievalPrecision
    (option_map (map Spec.lowerChunk) contextChunks) topSimilarity
    avgSimilarity
  = calculateRetrievalPrecision contextChunks topSimilarity avgSimilarity.
Proof.
  unfold calculateRetrievalPrecision. rewrite noContext_lowered.
  destruct contextChunks as [chunks|]; [|reflexivity].
  cbn [option_map default from_option id].
  rewrite filter_map_commute, !length_map. reflexivity.
Qed.

(** X19: for strings of code units below 256, no metric sees the case of
    letters.  Tracking a record whose query, response and context texts were
    lower-cased beforehand ends the same way, with the same scores and the
    same metrics, as tracking the record itself. *)
Theorem trackQuery_case_insensitive (metrics : Metrics.t)
  (data : QueryRecord.t) :
  trackQuery metrics (Spec.lowerCased data) = trackQuery metrics data.
Proof.
  unfold trackQuery, Spec.lowerCased.
  cbn [QueryRecord.query QueryRecord.response QueryRecord.sources
    QueryRecord.contextChunks QueryRecord.totalTimeMs
    QueryRecord.tokensGenerated QueryRecord.topSimilarity
    QueryRecord.avgSimilarity].
  rewrite length_toLowerCase, calculateDiversity_toLowerCase,
    calculateRepetition_toLowerCase, calculateContextUtilization_lowered,
    calculateGrounding_lowered, calculateCitationCoverage_lowered,
    calculateRetrievalPrecision_lowered, calculateQueryComplexity_toLowerCase,
    classifyQuery_toLowerCase, detectHallucination_lowered,
    calculateCompleteness_toLowerCase.
  reflexivity.
Qed.

(** *** More context *)

Lemma filter_length_mono {A : Type} (P R : A → bool) (l : list A) :
  (∀ x, P x = true → R x = true) →
  length (List.filter P l) ≤ length (List.filter R l).
Proof.
  intros HPR. induction l as [|x l IH]; simpl; [lia|].
  destruct (P x) eqn:HP.
  - rewrite (HPR x HP). simpl. lia.
  - destruct (R x); simpl; lia.
Qed.

Lemma fractionOf_mono {A : Type} (P R : A → bool) (l : list A) :
  (∀ x, P x = true → R x = true) →
  (Spec.fractionOf P l <= Spec.fractionOf R l)%Q.
Proof.
  intros HPR. unfold Spec.fractionOf.
  destruct (Nat.eqb_spec (length l) 0) as [|Hne]; [done|].
  apply ratio_le; [lia | lia |].
  apply Nat.mul_le_mono_r, filter_length_mono, HPR.
Qed.

Lemma append_empty_r (s : string) : s +:+ EmptyString = s.
Proof.
  induction s as [|c s IH]; [reflexivity|].
  change (String c (s +:+ EmptyString) = String c s). f_equal. exact IH.
Qed.

(** The text of a context is the beginning of the text of a longer one. *)
Lemma join_app_prefix (sep : string) (l1 l2 : list string) :
  ∃ post : string, JS.join sep (l1 ++ l2) = JS.join sep l1 +:+ post.
Proof.
  induction l1 as [|p l1 IH].
  - exists (JS.join sep l2). reflexivity.
  - destruct l1 as [|q l1].
    + destruct l2 as [|r l2].
      * exists EmptyString. rewrite append_empty_r. reflexivity.
      * exists (sep +:+ JS.join sep (r :: l2)). reflexivity.
    + destruct IH as [post Hpost].
      exists post.
      change (JS.join sep ((p :: q :: l1) ++ l2))
        with (p +:+ sep +:+ JS.join sep ((q :: l1) ++ l2)).
      rewrite Hpost.
      change (JS.join sep (p :: q :: l1))
        with (p +:+ sep +:+ JS.join sep (q :: l1)).
      rewrite !append_assoc. reflexivity.
Qed.

Lemma contextTextOf_app (chunks more : list Chunk.t) :
  Spec.occursIn (contextTextOf chunks) (contextTextOf (chunks ++ more)).
Proof.
  unfold contextTextOf. rewrite map_app.
  destruct (join_app_prefix " " (map (λ c, JS.toLowerCase (Chunk.text c)) chunks)
              (map (λ c, JS.toLowerCase (Chunk.text c)) more)) as [post ->].
  exists EmptyString, post. reflexivity.
Qed.

Section LargerContext.
Variables contextText contextText' : string.
Hypothesis Hlarger : Spec.occursIn contextText contextText'.

Lemma found_mono (words : list string) :
  length (List.filter (λ w, JS.includes contextText w) words)
  ≤ length (List.filter (λ w, JS.includes contextText' w) words).
Proof.
  apply filter_length_mono. intros w Hw.
  apply includes_occursIn. apply includes_occursIn in Hw.
  exact (occursIn_trans _ _ _ Hw Hlarger).
Qed.

Lemma rateBelow20_larger (sentence : string) :
  Spec.rateBelow20 contextText' sentence = true →
  Spec.rateBelow20 contextText sentence = true.
Proof.
  unfold Spec.rateBelow20. cbv zeta.
  pose proof (found_mono (contentWords sentence)) as Hfound.
  rewrite !andb_true_iff, !Nat.ltb_lt. lia.
Qed.

Lemma rateAbove30_larger (sentence : string) :
  Spec.rateAbove30 contextText sentence = true →
  Spec.rateAbove30 contextText' sentence = true.
Proof.
  unfold Spec.rateAbove30. cbv zeta.
  pose proof (found_mono (contentWords sentence)) as Hfound.
  rewrite !andb_true_iff, !Nat.ltb_lt. lia.
Qed.

End LargerContext.

(** X20: more context can only help.  Appending chunks to the context never
    raises the hallucination score of a response and never lowers its
    answer grounding. *)
Theorem more_context_helps (response : string) (chunks more : list Chunk.t) :
  (detectHallucination response (Some (chunks ++ more))
   <= detectHallucination response (Some chunks))%Q
  ∧ (calculateGrounding response (Some chunks)
     <= calculateGrounding response (Some (chunks ++ more)))%Q.
Proof.
  destruct chunks as [|c cs].
  - split.
    + apply detectHallucination_unit.
    + apply calculateGrounding_unit.
  - pose proof (contextTextOf_app (c :: cs) more) as Hlarger.
    change ((c :: cs) ++ more) with (c :: (cs ++ more)) in *.
    rewrite !detectHallucination_cons, !calculateGrounding_cons.
    split; apply fractionOf_mono; intros s.
    + apply rateBelow20_larger, Hlarger.
    + apply rateAbove30_larger, Hlarger.
Qed.

(** *** The order of the context chunks *)

(** The pieces of a split hold no separator. *)
Lemma splitRunsFrom_no_separator (sep : ascii → bool) (s : string)
  (inRun : bool) :
  Forall (λ piece, Spec.countChars sep piece = 0)
    (JS.splitRunsFrom sep inRun s).
Proof.
  revert inRun. induction s as [|c s IH]; intros inRun.
  - repeat constructor.
  - cbn [JS.splitRunsFrom]. destruct (sep c) eqn:Hc.
    + destruct inRun; [apply IH|]. constructor; [reflexivity | apply IH].
    + specialize (IH false).
      destruct (JS.splitRunsFrom sep false s) as [|piece rest];
        [repeat constructor; simpl; rewrite Hc; reflexivity|].
      apply Forall_cons in IH as [Hpiece Hrest].
      constructor; [|exact Hrest]. simpl. rewrite Hc, Hpiece. reflexivity.
Qed.

Section AcrossSeparator.
Variable sep : ascii → bool.
Variable x : ascii.
Hypothesis Hx : sep x = true.

(** A string without separators that starts [u x v] ends before [x]. *)
Lemma prefix_before_separator (w post u v : string) :
  Spec.countChars sep w = 0 →
  w +:+ post = u +:+ String x v →
  ∃ post' : string, u = w +:+ post'.
Proof.
  revert u. induction w as [|c w IH]; intros u Hw Heq.
  - exists u. reflexivity.
  - cbn [Spec.countChars] in Hw.
    destruct (sep c) eqn:Hc; [discriminate|]. cbn [Nat.add] in Hw.
    destruct u as [|d u].
    + injection Heq as -> _. congruence.
    + injection Heq as -> Heq.
      destruct (IH u Hw Heq) as [post' ->]. exists post'. reflexivity.
Qed.

(** An occurrence of a string without separators does not straddle [x]. *)
Lemma occursIn_across_separator (w u v : string) :
  Spec.countChars sep w = 0 →
  Spec.occursIn w (u +:+ String x v) →
  Spec.occursIn w u ∨ Spec.occursIn w v.
Proof.
  intros Hw (pre & post & Heq). revert pre Heq.
  induction u as [|d u IH]; intros pre Heq.
  - destruct pre as [|c pre].
    + destruct (prefix_before_separator w post EmptyString v Hw) as [post' Hp].
      { symmetry. exact Heq. }
      left. exists EmptyString, post'. exact Hp.
    + injection Heq as _ Heq. right. exists pre, post. exact Heq.
  - destruct pre as [|c pre].
    + destruct (prefix_before_separator w post (String d u) v Hw)
        as [post' Hp].
      { symmetry. exact Heq. }
      left. exists EmptyString, post'. exact Hp.
    + injection Heq as _ Heq.
      destruct (IH pre Heq) as [Hin|Hin]; [left | right; exact Hin].
      apply occursIn_String, Hin.
Qed.

End AcrossSeparator.

Lemma occursIn_empty (w : string) :
  Spec.occursIn w EmptyString → w = EmptyString.
Proof.
  intros (pre & post & Heq).
  destruct pre; [|discriminate]. destruct w; [reflexivity | discriminate].
Qed.

Lemma occursIn_join_elem (sep t : string) (l : list string) :
  t ∈ l → Spec.occursIn t (JS.join sep l).
Proof.
  induction l as [|p l IH]; intros Hin; [by apply elem_of_nil in Hin|].
  apply elem_of_cons in Hin as [->|Hin].
  - destruct l as [|q l].
    + exists EmptyString, EmptyString. simpl. rewrite append_empty_r.
      reflexivity.
    + exists EmptyString, (sep +:+ JS.join sep (q :: l)). reflexivity.
  - destruct l as [|q l]; [by apply elem_of_nil in Hin|].
    destruct (IH Hin) as (pre & post & Heq).
    exists (p +:+ sep +:+ pre), post.
    change (JS.join sep (p :: q :: l))
      with (p +:+ sep +:+ JS.join sep (q :: l)).
    rewrite Heq, !append_assoc. reflexivity.
Qed.

(** A non-empty word without white space occurs in the joined context text
    exactly when it occurs in one of the joined texts. *)
Lemma occursIn_join_space (w : string) (l : list string) :
  Spec.countChars JS.isWhiteSpace w = 0 → w ≠ EmptyString →
  Spec.occursIn w (JS.join " " l) ↔ ∃ t : string, t ∈ l ∧ Spec.occursIn w t.
Proof.
  intros Hw Hne. split.
  - induction l as [|p l IH]; intros Hocc.
    + apply occursIn_empty in Hocc. done.
    + destruct l as [|q l].
      * exists p. split; [left | exact Hocc].
      * change (JS.join " " (p :: q :: l))
          with (p +:+ String " " (JS.join " " (q :: l))) in Hocc.
        apply (occursIn_across_separator JS.isWhiteSpace) in Hocc
          as [Hp|Hrest]; [| |reflexivity | exact Hw].
        -- exists p. split; [left | exact Hp].
        -- destruct (IH Hrest) as (t & Ht & Hocc).
           exists t. split; [right; exact Ht | exact Hocc].
  - intros (t & Ht & Hocc).
    exact (occursIn_trans _ _ _ Hocc (occursIn_join_elem " " t l Ht)).
Qed.

Lemma contentWords_plain (sentence w : string) :
  In w (contentWords sentence) →
  Spec.countChars JS.isWhiteSpace w = 0 ∧ w ≠ EmptyString.
Proof.
  unfold contentWords. intros Hw. apply filter_In in Hw as [Hw Hlen].
  split.
  - pose proof (splitRunsFrom_no_separator JS.isWhiteSpace
                  (JS.toLowerCase sentence) false) as Hall.
    rewrite Forall_forall in Hall. apply Hall, list_elem_of_In, Hw.
  - intros ->. discriminate Hlen.
Qed.

(** Contexts with the same texts give every sentence the same match rate. *)
Lemma matchRate_same_texts (chunks1 chunks2 : list Chunk.t)
  (sentence : string) :
  (∀ t, t ∈ map Chunk.text chunks1 ↔ t ∈ map Chunk.text chunks2) →
  matchRate (contextTextOf chunks1) sentence
  = matchRate (contextTextOf chunks2) sentence.
Proof.
  intros Hsame. unfold matchRate. cbv zeta. f_equal. f_equal.
  apply filter_ext_in. intros w Hw.
  destruct (contentWords_plain sentence w Hw) as [Hplain Hne].
  assert (Hiff : ∀ cs1 cs2 : list Chunk.t,
    (∀ t, t ∈ map Chunk.text cs1 → t ∈ map Chunk.text cs2) →
    JS.includes (contextTextOf cs1) w = true →
    JS.includes (contextTextOf cs2) w = true).
  { intros cs1 cs2 Hsub Hinc.
    apply includes_occursIn. apply includes_occursIn in Hinc.
    unfold contextTextOf in *.
    apply (occursIn_join_space w _ Hplain Hne) in Hinc as (t & Ht & Hocc).
    apply (occursIn_join_space w _ Hplain Hne). exists t.
    split; [|exact Hocc].
    apply list_elem_of_fmap in Ht as (c & -> & Hc).
    assert (Htext : Chunk.text c ∈ map Chunk.text cs2).
    { apply Hsub, list_elem_of_fmap. exists c. split; [reflexivity | exact Hc]. }
    apply list_elem_of_fmap in Htext as (c' & Heq & Hc').
    apply list_elem_of_fmap. exists c'. split; [rewrite Heq; reflexivity | exact Hc']. }
  destruct (JS.includes (contextTextOf chunks1) w) eqn:H1.
  - symmetry. apply (Hiff chunks1 chunks2); [intros t; apply Hsame | exact H1].
  - destruct (JS.includes (contextTextOf chunks2) w) eqn:H2; [|reflexivity].
    rewrite (Hiff chunks2 chunks1) in H1; [discriminate | intros t; apply Hsame | exact H2].
Qed.

(** X21: the answer grounding and the hallucination score depend on the
    context only through the set of its chunk texts: reordering or
    repeating chunks changes neither.  (A content word holds no white
    space, so it cannot straddle the space that joins two texts.) *)
Theorem grounding_context_as_set (response : string)
  (chunks1 chunks2 : list Chunk.t) :
  (∀ t, t ∈ map Chunk.text chunks1 ↔ t ∈ map Chunk.text chunks2) →
  calculateGrounding response (Some chunks1)
  = calculateGrounding response (Some chunks2)
  ∧ detectHallucination response (Some chunks1)
    = detectHallucination response (Some chunks2).
Proof.
  intros Hsame.
  destruct chunks1 as [|c1 cs1], chunks2 as [|c2 cs2].
  - split; reflexivity.
  - exfalso. apply (not_elem_of_nil (Chunk.text c2)), Hsame. left.
  - exfalso. apply (not_elem_of_nil (Chunk.text c1)), Hsame. left.
  - rewrite !calculateGrounding_cons, !detectHallucination_cons.
    unfold Spec.fractionOf.
    destruct (length (longSentences response) =? 0); [split; reflexivity|].
    split; f_equal; f_equal; apply filter_ext; intros s.
    + rewrite <- !gt_matchRate.
      rewrite (matchRate_same_texts _ _ s Hsame). reflexivity.
    + rewrite <- !lt_matchRate.
      rewrite (matchRate_same_texts _ _ s Hsame). reflexivity.
Qed.

Lemma grounding_context_as_set_witness :
  (∀ t, t ∈ map Chunk.text [Sample.skyChunk; Sample.seaChunk]
        ↔ t ∈ map Chunk.text
                [Sample.seaChunk; Sample.skyChunk; Sample.seaChunk])
  ∧ calculateGrounding "Rayleigh scattering makes the sky blue, they say."
      (Some [Sample.skyChunk; Sample.seaChunk])
    = calculateGrounding "Rayleigh scattering makes the sky blue, they say."
        (Some [Sample.seaChunk; Sample.skyChunk; Sample.seaChunk]).
Proof.
  assert (Hsame :
    ∀ t, t ∈ map Chunk.text [Sample.skyChunk; Sample.seaChunk]
         ↔ t ∈ map Chunk.text
                 [Sample.seaChunk; Sample.skyChunk; Sample.seaChunk]).
  { intros t. vm_compute map. rewrite !elem_of_cons, !elem_of_nil. tauto. }
  split; [exact Hsame|].
  apply (grounding_context_as_set _ _ _ Hsame).
Defined.

(** The context utilization, for its part, splits the joined text anew: a
    text that ends in white space leaves an empty word when it comes last
    and none when another text follows, so the order of the chunks can
    change the score. *)
Example calculateContextUtilization_order :
  (calculateContextUtilization "alpha"
     (Some [Chunk.mk "alpha " "a" 1; Chunk.mk "beta" "b" 1]) == 1 # 2)%Q
  ∧ (calculateContextUtilization "alpha"
       (Some [Chunk.mk "beta" "b" 1; Chunk.mk "alpha " "a" 1]) == 1 # 3)%Q.
Proof. vm_compute. split; reflexivity. Qed.

(** *** Responses that quote *)

(** On the strings of this development, whose code units are below 256,
    [toLowerCase] works code unit by code unit and so keeps a substring a
    substring. *)
Lemma toLowerCase_append (a b : string) :
  JS.toLowerCase (a +:+ b) = JS.toLowerCase a +:+ JS.toLowerCase b.
Proof.
  induction a as [|c a IH]; [reflexivity|].
  change (String (JS.toLowerChar c) (JS.toLowerCase (a +:+ b))
          = String (JS.toLowerChar c) (JS.toLowerCase a +:+ JS.toLowerCase b)).
  f_equal. exact IH.
Qed.

Lemma occursIn_toLowerCase (w s : string) :
  Spec.occursIn w s →
  Spec.occursIn (JS.toLowerCase w) (JS.toLowerCase s).
Proof.
  intros (pre & post & ->).
  exists (JS.toLowerCase pre), (JS.toLowerCase post).
  rewrite !toLowerCase_append. reflexivity.
Qed.

(** X22: a response whose lower-cased text contains the lower-cased text of
    another response is at least as complete for every query. *)
Theorem calculateCompleteness_monotone (query response1 response2 : string) :
  Spec.occursIn (JS.toLowerCase response1) (JS.toLowerCase response2) →
  (calculateCompleteness query response1
   <= calculateCompleteness query response2)%Q.
Proof.
  intros Hin. unfold calculateCompleteness.
  set (queryWords := List.filter _ (splitWords (JS.toLowerCase query))).
  destruct (Nat.eqb_spec (length queryWords) 0) as [|Hne]; [done|].
  apply ratio_le; [lia | lia |].
  apply Nat.mul_le_mono_r, filter_length_mono. intros w Hw.
  apply includes_occursIn. apply includes_occursIn in Hw.
  exact (occursIn_trans _ _ _ Hw Hin).
Qed.

Lemma calculateCompleteness_monotone_witness :
  Spec.occursIn (JS.toLowerCase "The SKY is blue.")
    (JS.toLowerCase "Indeed. The sky is blue. So is the sea.")
  ∧ (calculateCompleteness "Compare sea and sky" "The SKY is blue."
     <= calculateCompleteness "Compare sea and sky"
          "Indeed. The sky is blue. So is the sea.")%Q.
Proof.
  assert (Hin : Spec.occursIn (JS.toLowerCase "The SKY is blue.")
                  (JS.toLowerCase "Indeed. The sky is blue. So is the sea.")).
  { exists "indeed. "%string, " so is the sea."%string. reflexivity. }
  split; [exact Hin|].
  apply (calculateCompleteness_monotone _ _ _ Hin).
Defined.

(** Every content word of a sentence of the response occurs in the
    lower-cased response. *)
Lemma contentWords_occursIn (response sentence w : string) :
  In sentence (longSentences response) →
  In w (contentWords sentence) →
  Spec.occursIn w (JS.toLowerCase response).
Proof.
  unfold longSentences, contentWords. intros Hs Hw.
  apply filter_In in Hs as [Hs _]. apply filter_In in Hw as [Hw _].
  apply list_elem_of_In, splitRuns_occursIn in Hs.
  apply list_elem_of_In, splitRuns_occursIn in Hw.
  exact (occursIn_trans _ _ _ Hw (occursIn_toLowerCase _ _ Hs)).
Qed.

(** X23: for strings of code units below 256, where [toLowerCase] works code
    unit by code unit, a response quoted from a context chunk, whatever its
    letter case, is never flagged: its hallucination score is 0. *)
Theorem detectHallucination_quoted (response : string)
  (chunks : list Chunk.t) (chunk : Chunk.t) :
  chunk ∈ chunks →
  Spec.occursIn (JS.toLowerCase response) (JS.toLowerCase (Chunk.text chunk)) →
  (detectHallucination response (Some chunks) == 0)%Q.
Proof.
  intros Hchunk Hquote.
  destruct chunks as [|c cs]; [by apply elem_of_nil in Hchunk|].
  rewrite detectHallucination_cons. unfold Spec.fractionOf.
  destruct (length (longSentences response) =? 0); [reflexivity|].
  assert (Hnone : List.filter (Spec.rateBelow20 (contextTextOf (c :: cs)))
                    (longSentences response) = []).
  { rewrite <- (filter_ext_in (λ _, false)).
    - induction (longSentences response) as [|s l IH]; [reflexivity | exact IH].
    - intros s Hs. symmetry. unfold Spec.rateBelow20. cbv zeta.
      rewrite (filter_ext_in (λ w, JS.includes (contextTextOf (c :: cs)) w)
                 (λ _, true)).
      + rewrite filter_true. apply andb_false_iff. right.
        apply Nat.ltb_ge. lia.
      + intros w Hw. apply includes_occursIn.
        eapply occursIn_trans; [exact (contentWords_occursIn _ _ _ Hs Hw)|].
        eapply occursIn_trans; [exact Hquote|].
        unfold contextTextOf. apply occursIn_join_elem.
        apply list_elem_of_fmap. exists chunk.
        split; [reflexivity | exact Hchunk]. }
  rewrite Hnone. unfold JS.ratio. cbn [length].
  change (JS.ofNat 0) with 0%Q. unfold Qdiv. apply Qmult_0_l.
Qed.

Lemma detectHallucination_quoted_witness :
  Sample.skyChunk ∈ [Sample.seaChunk; Sample.skyChunk]
  ∧ Spec.occursIn (JS.toLowerCase "SCATTERING MAKES THE SKY BLUE")
      (JS.toLowerCase (Chunk.text Sample.skyChunk))
  ∧ (detectHallucination "SCATTERING MAKES THE SKY BLUE"
       (Some [Sample.seaChunk; Sample.skyChunk]) == 0)%Q.
Proof.
  assert (Hchunk : Sample.skyChunk ∈ [Sample.seaChunk; Sample.skyChunk]).
  { right. left. }
  assert (Hquote :
    Spec.occursIn (JS.toLowerCase "SCATTERING MAKES THE SKY BLUE")
      (JS.toLowerCase (Chunk.text Sample.skyChunk))).
  { exists "rayleigh "%string, ""%string. reflexivity. }
  split; [exact Hchunk|]. split; [exact Hquote|].
  apply (detectHallucination_quoted _ _ _ Hchunk Hquote).
Defined.
